(** * A shallow embedding of the eliquious/lexer scanner

    The development follows the Go sources: [tokens.go] (token kinds,
    keyword table, [LoadTokenMap], [Lookup]), [scanner.go] ([Scan] and the
    routines it dispatches to) and [buffer.go] ([TokenBuffer]).

    [scanner.go] uses a rune reader, four character classes and the helpers
    [ScanString] and [ScanBareIdent] that no file of the repository
    declares; they are modelled from the specification and marked so.  The
    kinds [NUMBER] and [DURATION_VAL] that [scanNumber] returns are not
    declared either and are parameters, as is Go's [strings.ToLower].

    The loops of the scanner take a bound on their iterations, computed
    from the input that is left; [Scan_total] shows the bound is never hit.

    Runes are Unicode code points, held as [Z].  A Go string is held as the
    list of its runes: every string the scanner builds is made with
    [WriteRune] from runes it has read, so the list determines the UTF-8
    bytes and back. *)

From Stdlib Require Import String Ascii ZArith List Bool Lia.
From stdpp Require Import base option list gmap.
Import ListNotations.

Local Open Scope Z_scope.

(** ** Runes and strings *)

Definition rune := Z.

Abbreviation gostring := (list Z).

(** A rune literal of the source, such as ['.']. *)
Definition rn (c : ascii) : rune := Z.of_N (N_of_ascii c).

Arguments rn c%_char.

(** The micro sign U+00B5, written ['µ'] in [scanNumber]. *)
Definition micro : rune := 181.

(** The rune literals for the double quote, the single quote, the
    backslash, the tab and the newline. *)
Definition dquote : rune := 34.
Definition squote : rune := 39.
Definition backslash : rune := 92.
Definition tab : rune := 9.
Definition newline : rune := 10.

(** ** tokens.go *)

(** [type Pos struct { Line int; Char int }] *)
Record Pos := mkPos { Line : Z; Char : Z }.

(** [type Token int] *)
Definition Token := Z.

(** The [const ( ILLEGAL Token = iota ... )] block. *)
Definition ILLEGAL : Token := 0.
Definition EOF : Token := 1.
Definition WS : Token := 2.
Definition LPAREN : Token := 3.
Definition RPAREN : Token := 4.
Definition LBRACKET : Token := 5.
Definition RBRACKET : Token := 6.
Definition LCURLY : Token := 7.
Definition RCURLY : Token := 8.
Definition COMMA : Token := 9.
Definition SEMICOLON : Token := 10.
Definition COLON : Token := 11.
Definition DOT : Token := 12.
Definition SINGLEQUOTE : Token := 13.
Definition DOUBLEQUOTE : Token := 14.
Definition PERCENT : Token := 15.
Definition DOLLAR : Token := 16.
Definition HASH : Token := 17.
Definition ATSIGN : Token := 18.
Definition startLiterals : Token := 19.
Definition IDENT : Token := 20.
Definition INTEGER : Token := 21.
Definition DECIMAL : Token := 22.
Definition STRING : Token := 23.
Definition BADSTRING : Token := 24.
Definition BADESCAPE : Token := 25.
Definition TRUE : Token := 26.
Definition FALSE : Token := 27.
Definition REGEX : Token := 28.
Definition BADREGEX : Token := 29.
Definition DURATION : Token := 30.
Definition endLiterals : Token := 31.
Definition startOperators : Token := 32.
Definition PLUS : Token := 33.
Definition MINUS : Token := 34.
Definition MUL : Token := 35.
Definition DIV : Token := 36.
Definition AMPERSAND : Token := 37.
Definition XOR : Token := 38.
Definition PIPE : Token := 39.
Definition LSHIFT : Token := 40.
Definition RSHIFT : Token := 41.
Definition POW : Token := 42.
Definition ARROW : Token := 43.
Definition EQARROW : Token := 44.
Definition AND : Token := 45.
Definition OR : Token := 46.
Definition EQ : Token := 47.
Definition NEQ : Token := 48.
Definition EQREGEX : Token := 49.
Definition NEQREGEX : Token := 50.
Definition LT : Token := 51.
Definition LTE : Token := 52.
Definition GT : Token := 53.
Definition GTE : Token := 54.
Definition endOperators : Token := 55.

(** [func (tok Token) isOperator() bool] *)
Definition isOperator (tok : Token) : bool :=
  (startOperators <? tok) && (tok <? endOperators).

(** The punctuation band of the [const] block: the kinds declared under
    the [// Punctuation] comment, [LPAREN] to [ATSIGN]. *)
Definition isPunctuation (tok : Token) : bool :=
  (WS <? tok) && (tok <? startLiterals).

(** A string of the source, written as a Rocq string. *)
Definition str (s : String.string) : gostring :=
  map rn (String.list_ascii_of_string s).

Arguments str s%_string.

(** The two process-wide tables: [tokens] and [keywords]. *)
Record Tables := mkTables {
  tokens : gmap Z (list Z);
  keywords : gmap (list Z) Z
}.

(** [var keywords = map[string]Token{}] after [init()] has run. *)
Definition init_keywords : gmap (list Z) Z :=
  <[str "false" := FALSE]> (<[str "true" := TRUE]>
    (<[str "or" := OR]> (<[str "and" := AND]> ∅))).

(** The lower-casing of the ASCII range, the part of Go's
    [strings.ToLower] that does not need the Unicode tables. *)
Definition asciiLowerRune (c : rune) : rune :=
  if (rn "A" <=? c) && (c <=? rn "Z") then c + 32 else c.

Definition asciiToLower (s : gostring) : gostring := map asciiLowerRune s.


(** ** The rune reader

    [scanner.go] holds a [*reader] in [Scanner.r] and calls its [read],
    [unread] and [curr]; the type itself is declared in no file of the
    repository. *)

(** Modelled from the spec: the end-of-stream sentinel [eof], missing from
    src/; its value is the one the comment of [Scanner.read] gives:
    "Returns the rune(0) if an error occurs (or io.EOF is returned)". *)
Definition eof : rune := 0.

(** Modelled from the spec: the position tracker, missing from src/.
    "advances with each consumed rune, resets char and increments line on
    newline"; both fields are zero-based. *)
Definition advance (p : Pos) (c : rune) : Pos :=
  if c =? newline then mkPos (Line p + 1) 0 else mkPos (Line p) (Char p + 1).

(** The zero value of [Pos]. *)
Definition zeroPos : Pos := mkPos 0 0.

(** Modelled from the spec: the position the tracker, missing from src/,
    has reached before the rune at index [i] of the input. *)
Definition posAt (input : list rune) (i : nat) : Pos :=
  fold_left advance (take i input) zeroPos.

(** Modelled from the spec: the rune reader ([type reader] with [read],
    [unread] and [curr]), missing from src/.  [src] is the whole input and
    [cur] the number of runes read and not pushed back.  Past the end of
    the input every read gives the end-of-stream sentinel, at the position
    after the last rune.  The pushback is not bounded here; the scanner
    never has more than two runes pushed back. *)
Record reader := mkReader { src : list rune; cur : nat }.

(** Modelled from the spec: the rune at index [i] of the stream the
    reader, missing from src/, reads: the input, then the sentinel. *)
Definition runeAt (input : list rune) (i : nat) : rune :=
  default eof (input !! i).

(** Modelled from the spec: [curr] of the reader, missing from src/: "the
    last character returned by read() together with its position, without
    consuming"; after an [unread] it is the rune before the pushed-back
    one, and before any read the zero rune at the zero position.  The
    sample output of the README shows this: [scanString] calls [unread]
    and then [curr], and the quoted strings are listed at the column of
    the rune before their opening quote. *)
Definition curr (r : reader) : rune * Pos :=
  match cur r with
  | O => (0, zeroPos)
  | S i => (runeAt (src r) i, posAt (src r) i)
  end.

(** Modelled from the spec: [read] of the reader, missing from src/:
    "returns the next character and its position, or a designated
    end-of-stream sentinel once the underlying source is exhausted". *)
Definition read (r : reader) : rune * Pos * reader :=
  let r' := mkReader (src r) (S (cur r)) in (curr r', r').

(** Modelled from the spec: [unread] of the reader, missing from src/:
    "pushes back exactly the most recently read character, making it
    available again to the next read()". *)
Definition unread (r : reader) : reader := mkReader (src r) (Nat.pred (cur r)).

(** Modelled from the spec: [ReadRune] of the reader, missing from src/:
    the reader seen as an [io.RuneScanner].  It gives the rune and whether
    the end of the stream was hit ([err != nil]). *)
Definition ReadRune (r : reader) : rune * bool * reader :=
  let '(ch, _, r) := read r in (ch, ch =? eof, r).

(** Modelled from the spec: [UnreadRune] of the reader, missing from
    src/. *)
Definition UnreadRune (r : reader) : reader := unread r.

(** The runes not yet consumed. *)
Definition unconsumed (r : reader) : list rune := drop (cur r) (src r).

(** Every loop of the scanner stops at the end of the input at the latest;
    this bounds its number of iterations. *)
Definition fuel (r : reader) : nat := S (length (src r) - cur r).

(** ** Character classes *)

(** Modelled from the spec: [isWhitespace], missing from src/: space, tab
    and newline. *)
Definition isWhitespace (ch : rune) : bool :=
  (ch =? rn " ") || (ch =? tab) || (ch =? newline).

(** Modelled from the spec: [isLetter], missing from src/: the ASCII
    letters. *)
Definition isLetter (ch : rune) : bool :=
  ((rn "a" <=? ch) && (ch <=? rn "z")) || ((rn "A" <=? ch) && (ch <=? rn "Z")).

(** Modelled from the spec: [isDigit], missing from src/: the ASCII
    digits. *)
Definition isDigit (ch : rune) : bool := (rn "0" <=? ch) && (ch <=? rn "9").

(** Modelled from the spec: [isIdentChar], missing from src/: "letters,
    digits, underscore". *)
Definition isIdentChar (ch : rune) : bool :=
  isLetter ch || isDigit ch || (ch =? rn "_").

(** ** The helpers behind [io.RuneScanner] *)

(** Modelled from the spec: the errors of [ScanString], missing from
    src/; [scanString] compares with [errBadString] and [errBadEscape]. *)
Inductive error := noError | errBadString | errBadEscape.

(** Modelled from the spec: [ScanBareIdent], missing from src/.  It
    accumulates "a maximal run of identifier-legal characters": it reads
    until the end of the stream or a rune that is not an identifier
    character, which it pushes back. *)
Fixpoint ScanBareIdent_loop (n : nat) (r : reader) (buf : gostring)
  : option (gostring * reader) :=
  match n with
  | O => None
  | S n =>
    let '(ch, err, r) := ReadRune r in
    if err then Some (buf, r)
    else if negb (isIdentChar ch) then Some (buf, UnreadRune r)
    else ScanBareIdent_loop n r (buf ++ [ch])
  end.

(** Modelled from the spec: [ScanBareIdent], missing from src/, as its
    loop run from an empty buffer. *)
Definition ScanBareIdent (r : reader) : option (gostring * reader) :=
  ScanBareIdent_loop (fuel r) r [].

(** Modelled from the spec: [ScanString], missing from src/.  The first
    rune is the delimiter; the body "supports backslash-escaped quote
    characters"; "an unterminated literal (end-of-stream reached before the
    closing quote) yields BADSTRING with whatever partial content was
    accumulated"; "an escape sequence using an unsupported escape character
    yields BADESCAPE with ... literal containing content accumulated so
    far". *)
Fixpoint ScanString_loop (n : nat) (ending : rune) (r : reader) (buf : gostring)
  : option (gostring * error * reader) :=
  match n with
  | O => None
  | S n =>
    let '(ch0, err, r) := ReadRune r in
    if ch0 =? ending then Some (buf, noError, r)
    else if err then Some (buf, errBadString, r)
    else if ch0 =? backslash then
      let '(ch1, _, r) := ReadRune r in
      if (ch1 =? dquote) || (ch1 =? squote) then
        ScanString_loop n ending r (buf ++ [ch1])
      else Some (buf, errBadEscape, r)
    else ScanString_loop n ending r (buf ++ [ch0])
  end.

(** Modelled from the spec: [ScanString], missing from src/: the opening
    delimiter is read, then the body. *)
Definition ScanString (r : reader) : option (gostring * error * reader) :=
  let '(ending, err, r) := ReadRune r in
  if err then Some ([], errBadString, r)
  else ScanString_loop (fuel r) ending r [].

(** ** scanner.go and the tables of tokens.go

    [scanner.go] returns the kinds [NUMBER] and [DURATION_VAL], which the
    [const] block of [tokens.go] does not declare; they are parameters
    here, as is Go's [strings.ToLower]. *)

(** What a scan returns: [(tok Token, pos Pos, lit string)]. *)
Definition result := (Token * Pos * gostring)%type.

Section Scanner.

Variables NUMBER DURATION_VAL : Token.
Variable ToLower : gostring -> gostring.

(** [func LoadTokenMap(keywordTokens map[Token]string)].  The argument is
    given as the list of its entries in the order the [range] statements
    visit them. *)
Definition LoadTokenMap (keywordTokens : list (Token * gostring)) (t : Tables)
  : Tables :=
  mkTables
    (fold_left (fun m kv => <[kv.1 := kv.2]> m) keywordTokens (tokens t))
    (fold_left (fun m kv => <[ToLower kv.2 := kv.1]> m) keywordTokens
       (keywords t)).

(** [func Lookup(ident string) Token], reading the table [kw]. *)
Definition Lookup (kw : gmap (list Z) Z) (ident : gostring) : Token :=
  match kw !! ToLower ident with
  | Some tok => tok
  | None => IDENT
  end.

(** [func (s *Scanner) scanWhitespace()] *)
Fixpoint scanWhitespace_loop (n : nat) (s : reader) (buf : gostring)
  : option (gostring * reader) :=
  match n with
  | O => None
  | S n =>
    let '(ch, _, s) := read s in
    if ch =? eof then Some (buf, s)
    else if negb (isWhitespace ch) then Some (buf, unread s)
    else scanWhitespace_loop n s (buf ++ [ch])
  end.

Definition scanWhitespace (s : reader) : option (result * reader) :=
  let '(ch, pos) := curr s in
  '(buf, s) ← scanWhitespace_loop (fuel s) s [ch];
  Some (WS, pos, buf, s).

(** [func (s *Scanner) scanString()] *)
Definition scanString (s : reader) : option (result * reader) :=
  let s := unread s in
  let '(_, pos) := curr s in
  '(lit, err, s) ← ScanString s;
  match err with
  | errBadString => Some (BADSTRING, pos, lit, s)
  | errBadEscape => let '(_, pos) := curr s in Some (BADESCAPE, pos, lit, s)
  | noError => Some (STRING, pos, lit, s)
  end.

(** The [for] loop of [scanIdent]: [inl] is a [return] from inside the
    loop, [inr] the buffer at a [break]. *)
Fixpoint scanIdent_loop (n : nat) (pos : Pos) (s : reader) (buf : gostring)
  : option ((result * reader) + (gostring * reader)) :=
  match n with
  | O => None
  | S n =>
    let '(ch, _, s) := read s in
    if ch =? eof then Some (inr (buf, s))
    else if ch =? dquote then
      '(tok0, pos0, lit0, s) ← scanString s;
      if (tok0 =? BADSTRING) || (tok0 =? BADESCAPE)
      then Some (inl (tok0, pos0, lit0, s))
      else Some (inl (IDENT, pos, lit0, s))
    else if isIdentChar ch then
      '(id, s) ← ScanBareIdent (unread s);
      scanIdent_loop n pos s (buf ++ id)
    else Some (inr (buf, unread s))
  end.

(** [func (s *Scanner) scanIdent()] *)
Definition scanIdent (kw : gmap (list Z) Z) (s : reader)
  : option (result * reader) :=
  let '(_, pos, s) := read s in
  let s := unread s in
  r ← scanIdent_loop (fuel s) pos s [];
  match r with
  | inl res => Some res
  | inr (lit, s) =>
    let tok := Lookup kw lit in
    if negb (tok =? IDENT) then Some (tok, pos, [], s)
    else Some (IDENT, pos, lit, s)
  end.

(** [func (s *Scanner) scanDigits() string] *)
Fixpoint scanDigits_loop (n : nat) (s : reader) (buf : gostring)
  : option (gostring * reader) :=
  match n with
  | O => None
  | S n =>
    let '(ch, _, s) := read s in
    if negb (isDigit ch) then Some (buf, unread s)
    else scanDigits_loop n s (buf ++ [ch])
  end.

Definition scanDigits (s : reader) : option (gostring * reader) :=
  scanDigits_loop (fuel s) s [].

(** [strings.Contains(buf.String(), ".")] *)
Definition containsDot (buf : gostring) : bool := existsb (Z.eqb (rn ".")) buf.

(** [scanNumber] from "Read as many digits as possible" on: [buf] holds
    the sign, if any. *)
Definition scanNumber_digits (pos : Pos) (buf : gostring) (s : reader)
  : option (result * reader) :=
  '(ds, s) ← scanDigits s;
  let buf := buf ++ ds in
  let '(ch0, _, s) := read s in
  '(buf, s) ←
    (if ch0 =? rn "." then
       let '(ch1, _, s) := read s in
       if isDigit ch1 then
         '(ds, s) ← scanDigits s;
         Some (buf ++ [ch0] ++ [ch1] ++ ds, s)
       else Some (buf, unread (unread s))
     else Some (buf, unread s));
  if negb (containsDot buf) then
    let '(ch0, _, s) := read s in
    if (ch0 =? rn "u") || (ch0 =? micro) || (ch0 =? rn "s") || (ch0 =? rn "h")
       || (ch0 =? rn "d") || (ch0 =? rn "w")
    then Some (DURATION_VAL, pos, buf ++ [ch0], s)
    else if ch0 =? rn "m" then
      let buf := buf ++ [ch0] in
      let '(ch1, _, s) := read s in
      if ch1 =? rn "s" then Some (DURATION_VAL, pos, buf ++ [ch1], s)
      else Some (DURATION_VAL, pos, buf, unread s)
    else Some (NUMBER, pos, buf, unread s)
  else Some (NUMBER, pos, buf, s).

(** [func (s *Scanner) scanNumber()] *)
Definition scanNumber (s : reader) : option (result * reader) :=
  let '(ch, pos) := curr s in
  if (ch =? rn "+") || (ch =? rn "-") then
    let '(ch1, _, s) := read s in
    let '(ch2, _, s) := read s in
    let s := unread (unread s) in
    if isDigit ch1 || ((ch1 =? rn ".") && isDigit ch2)
    then scanNumber_digits pos [ch] s
    else if ch =? rn "+" then Some (PLUS, pos, [], s)
    else if ch =? rn "-" then Some (MINUS, pos, [], s)
    else scanNumber_digits pos [] s
  else if ch =? rn "." then
    let '(ch1, _, s) := read s in
    let s := unread s in
    if negb (isDigit ch1) then Some (ILLEGAL, pos, [rn "."], s)
    else scanNumber_digits pos [] (unread s)
  else scanNumber_digits pos [] (unread s).

(** The [switch ch0] of [Scan]. *)
Definition Scan_switch (kw : gmap (list Z) Z) (ch0 : rune) (pos : Pos)
  (s : reader) : option (result * reader) :=
  if ch0 =? eof then Some (EOF, pos, [], s)
  else if ch0 =? dquote then scanIdent kw (unread s)
  else if ch0 =? squote then scanString s
  else if ch0 =? rn "." then
    let '(ch1, _, s) := read s in
    let s := unread s in
    if isDigit ch1 then scanNumber s else Some (DOT, pos, [], s)
  else if (ch0 =? rn "+") || (ch0 =? rn "-") then scanNumber s
  else if ch0 =? rn "*" then Some (MUL, pos, [], s)
  else if ch0 =? rn "/" then Some (DIV, pos, [], s)
  else if ch0 =? rn "=" then
    let '(ch1, _, s) := read s in
    if ch1 =? rn "~" then Some (EQREGEX, pos, [], s)
    else Some (EQ, pos, [], unread s)
  else if ch0 =? rn "!" then
    let '(ch1, _, s) := read s in
    if ch1 =? rn "=" then Some (NEQ, pos, [], s)
    else if ch1 =? rn "~" then Some (NEQREGEX, pos, [], s)
    else Some (ILLEGAL, pos, [ch0], unread s)
  else if ch0 =? rn ">" then
    let '(ch1, _, s) := read s in
    if ch1 =? rn "=" then Some (GTE, pos, [], s)
    else if ch1 =? rn ">" then Some (RSHIFT, pos, [], s)
    else Some (GT, pos, [], unread s)
  else if ch0 =? rn "<" then
    let '(ch1, _, s) := read s in
    if ch1 =? rn "=" then Some (LTE, pos, [], s)
    else if ch1 =? rn ">" then Some (NEQ, pos, [], s)
    else if ch1 =? rn "<" then Some (LSHIFT, pos, [], s)
    else Some (LT, pos, [], unread s)
  else if ch0 =? rn "(" then Some (LPAREN, pos, [], s)
  else if ch0 =? rn ")" then Some (RPAREN, pos, [], s)
  else if ch0 =? rn "[" then Some (LBRACKET, pos, [], s)
  else if ch0 =? rn "]" then Some (RBRACKET, pos, [], s)
  else if ch0 =? rn "{" then Some (LCURLY, pos, [], s)
  else if ch0 =? rn "}" then Some (RCURLY, pos, [], s)
  else if ch0 =? rn "," then Some (COMMA, pos, [], s)
  else if ch0 =? rn ";" then Some (SEMICOLON, pos, [], s)
  else if ch0 =? rn ":" then Some (COLON, pos, [], s)
  else if ch0 =? rn "^" then Some (XOR, pos, [], s)
  else if ch0 =? rn "|" then Some (PIPE, pos, [], s)
  else if ch0 =? rn "&" then Some (AMPERSAND, pos, [], s)
  else if ch0 =? rn "%" then Some (PERCENT, pos, [], s)
  else if ch0 =? rn "$" then Some (DOLLAR, pos, [], s)
  else if ch0 =? rn "#" then Some (HASH, pos, [], s)
  else if ch0 =? rn "@" then Some (ATSIGN, pos, [], s)
  else Some (ILLEGAL, pos, [ch0], s).

(** [func (s *Scanner) Scan() (tok Token, pos Pos, lit string)].  The
    [Scanner] struct has the one field [r], the reader. *)
Definition Scan (kw : gmap (list Z) Z) (s : reader) : option (result * reader) :=
  let '(ch0, pos, s) := read s in
  if isWhitespace ch0 then scanWhitespace s
  else if isLetter ch0 || (ch0 =? rn "_") then scanIdent kw (unread s)
  else if isDigit ch0 then scanNumber s
  else Scan_switch kw ch0 pos s.

(** The result of the call of [Scan] that follows [k] earlier calls. *)
Fixpoint Scan_nth (kw : gmap (list Z) Z) (k : nat) (s : reader)
  : option (result * reader) :=
  match k with
  | O => Scan kw s
  | S k => '(_, s) ← Scan kw s; Scan_nth kw k s
  end.

(** The first [k] results of repeated calls of [Scan]. *)
Fixpoint Scan_all (kw : gmap (list Z) Z) (k : nat) (s : reader)
  : option (list result) :=
  match k with
  | O => Some []
  | S k => '(res, s) ← Scan kw s; rest ← Scan_all kw k s; Some (res :: rest)
  end.

(** The kinds that come with a literal. *)
Definition contentKinds : list Token :=
  [ILLEGAL; WS; IDENT; NUMBER; STRING; DURATION_VAL; BADSTRING; BADESCAPE].

End Scanner.

(** [func NewScanner(r io.Reader) *Scanner] over the runes of the input. *)
Definition NewScanner (input : list rune) : reader := mkReader input 0.

(** [func (s *Scanner) read() rune]: "Returns the rune(0) if an error
    occurs (or io.EOF is returned)".  [Scan] does not call it. *)
Definition Scanner_read (s : reader) : rune * reader :=
  let '(ch, err, s) := ReadRune s in (if err then eof else ch, s).

(** [func (s *Scanner) unread()] *)
Definition Scanner_unread (s : reader) : reader := UnreadRune s.

(** ** buffer.go *)

(** Go's [int] is 64 bits wide here; [s.n++] and the index arithmetic wrap
    around. *)
Definition wrap_int (z : Z) : Z := (z + 2 ^ 63) mod 2 ^ 64 - 2 ^ 63.

(** [len(s.buf)] for [buf [6]struct{ tok Token; pos Pos; lit string }]. *)
Definition capacity : Z := 6.

(** The zero value of a buffer entry. *)
Definition zeroResult : result := (0, zeroPos, []).

Section TokenBuffer.

(** The state of the wrapped [*Scanner]. *)
Variable St : Type.

Record TokenBuffer := mkTokenBuffer {
  s : St;
  i : Z;
  n : Z;
  buf : list result
}.

(** [func NewTokenBuffer(r io.Reader) *TokenBuffer] *)
Definition NewTokenBuffer (s0 : St) : TokenBuffer :=
  mkTokenBuffer s0 0 0 (replicate 6 zeroResult).

(** [s.buf[k]]: an index outside the array panics, here [None]. *)
Definition index (b : list result) (k : Z) : option result :=
  if (0 <=? k) && (k <? capacity) then b !! Z.to_nat k else None.

(** [func (s *TokenBuffer) Current()]; Go's [%] truncates, as [Z.rem]. *)
Definition Current (b : TokenBuffer) : option result :=
  index (buf b) (Z.rem (wrap_int (wrap_int (i b - n b) + capacity)) capacity).

(** [func (s *TokenBuffer) Unscan() { s.n++ }] *)
Definition Unscan (b : TokenBuffer) : TokenBuffer :=
  mkTokenBuffer (s b) (i b) (wrap_int (n b + 1)) (buf b).

(** [func (s *TokenBuffer) ScanFunc(scan func() (Token, Pos, string))];
    [scan] acts on the state of the wrapped scanner. *)
Definition ScanFunc (scan : St -> option (result * St)) (b : TokenBuffer)
  : option (result * TokenBuffer) :=
  if 0 <? n b then
    let b := mkTokenBuffer (s b) (i b) (wrap_int (n b - 1)) (buf b) in
    res ← Current b; Some (res, b)
  else
    let i' := Z.rem (wrap_int (i b + 1)) capacity in
    _ ← index (buf b) i';
    '(res, s') ← scan (s b);
    let b := mkTokenBuffer s' i' (n b) (<[Z.to_nat i' := res]> (buf b)) in
    res ← Current b; Some (res, b).

(** [k] calls of [ScanFunc] in a row, with the triples they return. *)
Fixpoint scans (scan : St -> option (result * St)) (k : nat) (b : TokenBuffer)
  : option (list result * TokenBuffer) :=
  match k with
  | O => Some ([], b)
  | S k =>
    '(res, b) ← ScanFunc scan b;
    '(rest, b) ← scans scan k b;
    Some (res :: rest, b)
  end.

(** [k] calls of [Unscan] in a row. *)
Fixpoint unscans (k : nat) (b : TokenBuffer) : TokenBuffer :=
  match k with
  | O => b
  | S k => unscans k (Unscan b)
  end.

(** The array has its six entries, the write index is inside it and the
    pending replay count is a non-negative [int]. *)
Definition buffer_ok (b : TokenBuffer) : Prop :=
  length (buf b) = 6%nat /\ 0 <= i b < capacity /\ 0 <= n b < 2 ^ 63.

End TokenBuffer.

Arguments s {St} _.
Arguments i {St} _.
Arguments n {St} _.
Arguments buf {St} _.
Arguments mkTokenBuffer {St} _ _ _ _.
Arguments NewTokenBuffer {St} _.
Arguments Current {St} _.
Arguments Unscan {St} _.
Arguments ScanFunc {St} _ _.
Arguments scans {St} _ _ _.
Arguments unscans {St} _ _.
Arguments buffer_ok {St} _.

(** ** Vocabulary of the statements *)

(** The units of one rune that [scanNumber] tests after the digits: [u],
    the micro sign, [s], [h], [d] and [w]. *)
Definition isUnit (u : rune) : bool :=
  (u =? rn "u") || (u =? micro) || (u =? rn "s") || (u =? rn "h")
  || (u =? rn "d") || (u =? rn "w").

(** Whether the two runes after a sign start a number. *)
Definition startsNumber (rest : list rune) : bool :=
  isDigit (hd eof rest) || ((hd eof rest =? rn ".") && isDigit (hd eof (tl rest))).

(** The optional sign of a numeric literal. *)
Definition isSign (sign : list rune) : Prop :=
  sign = [] \/ sign = [rn "+"] \/ sign = [rn "-"].

(** The runes of a bare word: letters and underscores. *)
Definition isWordChar (ch : rune) : bool := isLetter ch || (ch =? rn "_").

(** What may follow a bare identifier for it to end there: the end of the
    input, or a rune that is neither an identifier character, nor the
    double quote, nor the rune zero. *)
Definition identEnd (rest : list rune) : Prop :=
  rest = [] \/
  (isIdentChar (hd eof rest) = false /\ hd eof rest <> dquote /\
   hd eof rest <> eof).

(** A rune of a string body that needs no special handling. *)
Definition plainChar (ending ch : rune) : bool :=
  negb (ch =? ending) && negb (ch =? backslash) && negb (ch =? eof).

(** A literal kind of the [const] block other than the two boolean
    keywords: what [NUMBER] and [DURATION_VAL] have to be. *)
Definition isContentKind (tok : Token) : Prop :=
  startLiterals < tok < endLiterals /\ tok <> TRUE /\ tok <> FALSE.

(** A kind the keyword table holds. *)
Definition keywordKind (kw : gmap (list Z) Z) (tok : Token) : Prop :=
  exists name : list Z, kw !! name = Some tok.

(** The registration contract: besides the built-in keywords, the table
    holds only kinds outside the built-in band. *)
Definition keywords_ok (kw : gmap (list Z) Z) : Prop :=
  forall (name : list Z) (tok : Token),
    kw !! name = Some tok ->
    In tok [AND; OR; TRUE; FALSE] \/ tok < ILLEGAL \/ endOperators < tok.

(** The slot of the array that holds the entry at cursor [z]. *)
Definition slot (z : Z) : nat := Z.to_nat (z mod 6).

(** The instance the examples are run at: [NUMBER] and [DURATION_VAL] taken
    as the literal kinds [INTEGER] and [DURATION] of the [const] block, and
    [strings.ToLower] on ASCII strings. *)
Definition exNUMBER : Token := INTEGER.
Definition exDURATION_VAL : Token := DURATION.

Definition exScan : gmap (list Z) Z -> reader -> option (result * reader) :=
  Scan exNUMBER exDURATION_VAL asciiToLower.

Definition exScan_all : gmap (list Z) Z -> nat -> reader -> option (list result) :=
  Scan_all exNUMBER exDURATION_VAL asciiToLower.

(** [func (s *TokenBuffer) Scan()] at that instance: [ScanFunc] on the
    [Scan] of the wrapped scanner, reading the table [kw]. *)
Definition TokenBuffer_Scan (kw : gmap (list Z) Z) (b : TokenBuffer reader)
  : option (result * TokenBuffer reader) :=
  ScanFunc (exScan kw) b.

(** A scan function that fails whenever it is called. *)
Definition noScan (r : reader) : option (result * reader) := None.

(** ** More of tokens.go *)

(** [var tokens = map[Token]string{ ... }], as the file initialises it. *)
Definition init_tokens : gmap Z (list Z) :=
  list_to_map
    [(ILLEGAL, str "ILLEGAL"); (EOF, str "EOF"); (WS, str "WS");
     (LPAREN, str "("); (RPAREN, str ")"); (LBRACKET, str "[");
     (RBRACKET, str "]"); (LCURLY, str "{"); (RCURLY, str "}");
     (COMMA, str ","); (SEMICOLON, str ";"); (COLON, str ":"); (DOT, str ".");
     (SINGLEQUOTE, [squote]); (DOUBLEQUOTE, [dquote]); (PERCENT, str "%%");
     (DOLLAR, str "$"); (HASH, str "#"); (ATSIGN, str "@");
     (IDENT, str "IDENT"); (INTEGER, str "INTEGER"); (DECIMAL, str "DECIMAL");
     (STRING, str "TEXTUAL"); (DURATION, str "DURATION");
     (BADSTRING, str "BADSTRING"); (BADESCAPE, str "BADESCAPE");
     (REGEX, str "REGEX"); (BADREGEX, str "BADREGEX");
     (PLUS, str "+"); (MINUS, str "-"); (MUL, str "*"); (DIV, str "/");
     (AMPERSAND, str "&"); (XOR, str "^"); (PIPE, str "|");
     (RSHIFT, str ">>"); (LSHIFT, str "<<"); (POW, str "**");
     (ARROW, str "->"); (EQARROW, str "=>");
     (AND, str "AND"); (OR, str "OR");
     (TRUE, str "true"); (FALSE, str "false");
     (EQ, str "="); (NEQ, str "!="); (EQREGEX, str "=~"); (NEQREGEX, str "!~");
     (LT, str "<"); (LTE, str "<="); (GT, str ">"); (GTE, str ">=")].

(** The two tables as the package initialises them. *)
Definition init_tables : Tables := mkTables init_tokens init_keywords.

(** [func (tok Token) String() string], reading the table [toks]. *)
Definition Token_String (toks : gmap Z (list Z)) (tok : Token) : gostring :=
  match toks !! tok with
  | Some v => v
  | None => []
  end.

(** [func (tok Token) Precedence() int] *)
Definition Precedence (tok : Token) : Z :=
  if tok =? OR then 1
  else if tok =? AND then 2
  else if (tok =? EQ) || (tok =? NEQ) || (tok =? EQREGEX) || (tok =? NEQREGEX)
          || (tok =? LT) || (tok =? LTE) || (tok =? GT) || (tok =? GTE) then 3
  else if (tok =? PLUS) || (tok =? MINUS) then 4
  else if (tok =? MUL) || (tok =? DIV) then 5
  else if (tok =? PIPE) || (tok =? XOR) || (tok =? RSHIFT) || (tok =? LSHIFT)
          || (tok =? POW) then 6
  else 0.

(** [func tokstr(tok Token, lit string) string] *)
Definition tokstr (toks : gmap Z (list Z)) (tok : Token) (lit : gostring)
  : gostring :=
  match lit with
  | [] => Token_String toks tok
  | _ :: _ => lit
  end.

(** ** More vocabulary *)

(** The scan from [s] to [s'] consumed exactly the runes [lit] of the
    input. *)
Definition lexeme (s : reader) (lit : gostring) (s' : reader) : Prop :=
  src s' = src s /\ unconsumed s = lit ++ unconsumed s' /\
  cur s' = (cur s + length lit)%nat.

(** The reader [s'] reads the same input as [mkReader input c], further on
    by at least [k] runes. *)
Definition moved (input : list rune) (c k : nat) (s' : reader) : Prop :=
  src s' = input /\ (c + k <= cur s')%nat.

(** The reader a run of the loop of [scanIdent] ends with. *)
Definition loop_reader (r : (result * reader) + (gostring * reader)) : reader :=
  match r with
  | inl (_, s) => s
  | inr (_, s) => s
  end.

(** The tokens of one rune in the [switch] of [Scan]. *)
Definition singleRuneTokens : list (rune * Token) :=
  [(rn "*", MUL); (rn "/", DIV); (rn "(", LPAREN); (rn ")", RPAREN);
   (rn "[", LBRACKET); (rn "]", RBRACKET); (rn "{", LCURLY); (rn "}", RCURLY);
   (rn ",", COMMA); (rn ";", SEMICOLON); (rn ":", COLON); (rn "^", XOR);
   (rn "|", PIPE); (rn "&", AMPERSAND); (rn "%", PERCENT); (rn "$", DOLLAR);
   (rn "#", HASH); (rn "@", ATSIGN)].

(** The runes the [switch] of [Scan] has a [case] for. *)
Definition switchRunes : list rune :=
  [eof; dquote; squote; rn "."; rn "+"; rn "-"; rn "="; rn "!"; rn ">"; rn "<"]
  ++ map fst singleRuneTokens.

(** The operators of [Scan] that start with [=], [!], [>] or [<]: the kind
    and the number of runes for the first rune [c] and the rune [next] after
    it; [None] for a [!] that neither [=] nor [~] follows. *)
Definition operatorOf (c next : rune) : option (Token * nat) :=
  if c =? rn "=" then
    if next =? rn "~" then Some (EQREGEX, 2%nat) else Some (EQ, 1%nat)
  else if c =? rn "!" then
    if next =? rn "=" then Some (NEQ, 2%nat)
    else if next =? rn "~" then Some (NEQREGEX, 2%nat) else None
  else if c =? rn ">" then
    if next =? rn "=" then Some (GTE, 2%nat)
    else if next =? rn ">" then Some (RSHIFT, 2%nat) else Some (GT, 1%nat)
  else if c =? rn "<" then
    if next =? rn "=" then Some (LTE, 2%nat)
    else if next =? rn ">" then Some (NEQ, 2%nat)
    else if next =? rn "<" then Some (LSHIFT, 2%nat) else Some (LT, 1%nat)
  else None.

(** The kinds the [switch] of [Scan] returns with an empty literal. *)
Definition fixedKinds : list Token :=
  [EOF; DOT; PLUS; MINUS; EQREGEX; EQ; NEQ; NEQREGEX; GTE; RSHIFT; GT; LTE;
   LSHIFT; LT] ++ map snd singleRuneTokens.

(** The declared kinds that no [case] of [Scan] returns. *)
Definition unscannedKinds : list Token :=
  [SINGLEQUOTE; DOUBLEQUOTE; POW; ARROW; EQARROW].

(** [k] calls of a scan function in a row, with the triples they return. *)
Fixpoint scan_list {St : Type} (scan : St -> option (result * St)) (k : nat)
  (s0 : St) : option (list result * St) :=
  match k with
  | O => Some ([], s0)
  | S k =>
    '(res, s1) ← scan s0;
    '(rest, s2) ← scan_list scan k s1;
    Some (res :: rest, s2)
  end.

(** * Properties *)

(** ** The reader *)

Lemma runeAt_hd (input : list rune) (c : nat) :
  runeAt input c = hd eof (drop c input).
Proof.
  unfold runeAt. revert c.
  induction input as [|x l IH]; intros [|c]; simpl; try reflexivity.
  apply IH.
Qed.

Lemma drop_S_tl (input : list rune) (c : nat) :
  drop (S c) input = tl (drop c input).
Proof.
  revert c. induction input as [|x l IH]; intros [|c]; simpl; try reflexivity.
  apply IH.
Qed.

Lemma drop_plus_app (input l1 l2 : list rune) (c : nat) :
  drop c input = l1 ++ l2 -> drop (c + length l1) input = l2.
Proof.
  intros H. rewrite <- drop_drop, H. apply drop_app_length.
Qed.

Lemma read_at (input : list rune) (c : nat) :
  read (mkReader input c)
  = (hd eof (drop c input), posAt input c, mkReader input (S c)).
Proof. unfold read, curr. simpl. rewrite runeAt_hd. reflexivity. Qed.

Lemma unread_at (input : list rune) (c : nat) :
  unread (mkReader input (S c)) = mkReader input c.
Proof. reflexivity. Qed.

Lemma curr_at (input : list rune) (c : nat) :
  curr (mkReader input (S c)) = (hd eof (drop c input), posAt input c).
Proof. unfold curr. simpl. rewrite runeAt_hd. reflexivity. Qed.

Lemma ReadRune_at (input : list rune) (c : nat) :
  ReadRune (mkReader input c)
  = (hd eof (drop c input), hd eof (drop c input) =? eof, mkReader input (S c)).
Proof. unfold ReadRune. rewrite read_at. reflexivity. Qed.

Lemma fuel_at (input l : list rune) (c : nat) :
  drop c input = l -> fuel (mkReader input c) = S (length l).
Proof. intros <-. unfold fuel. simpl. rewrite length_drop. reflexivity. Qed.

Lemma drop_S_cons (input : list rune) (c : nat) (x : rune) (l : list rune) :
  drop c input = x :: l -> drop (S c) input = l.
Proof. intros H. rewrite drop_S_tl, H. reflexivity. Qed.

(** A list splits into its longest prefix satisfying [p] and the rest. *)
Lemma span_exists (p : rune -> bool) (l : list rune) :
  p eof = false ->
  exists run rest,
    l = run ++ rest /\ forallb p run = true /\ p (hd eof rest) = false.
Proof.
  intros Hp. induction l as [|x l (run & rest & -> & Hrun & Hrest)].
  - exists [], []. auto.
  - destruct (p x) eqn:Hx.
    + exists (x :: run), rest. simpl. rewrite Hx, Hrun. auto.
    + exists [], (x :: run ++ rest). auto.
Qed.

(** ** The loops of the scanner *)

Section ScannerProperties.

Variables NUMBER DURATION_VAL : Token.
Variable ToLower : gostring -> gostring.

Local Abbreviation Scan := (Scan NUMBER DURATION_VAL ToLower).
Local Abbreviation scanNumber := (scanNumber NUMBER DURATION_VAL).
Local Abbreviation scanNumber_digits := (scanNumber_digits NUMBER DURATION_VAL).
Local Abbreviation scanIdent := (scanIdent ToLower).
Local Abbreviation Scan_switch := (Scan_switch NUMBER DURATION_VAL ToLower).
Local Abbreviation Lookup := (Lookup ToLower).
Local Abbreviation contentKinds := (contentKinds NUMBER DURATION_VAL).

Lemma scanDigits_loop_run (ds rest input : list rune) :
  forall (c : nat) (buf : gostring) (k : nat),
    drop c input = ds ++ rest ->
    forallb isDigit ds = true ->
    isDigit (hd eof rest) = false ->
    (length ds < k)%nat ->
    scanDigits_loop k (mkReader input c) buf
    = Some (buf ++ ds, mkReader input (c + length ds)).
Proof.
  induction ds as [|d ds IH]; intros c buf k Hdrop Hds Hrest Hk;
    (destruct k as [|k]; [simpl in Hk; lia|]); cbn [scanDigits_loop];
    rewrite read_at, Hdrop; simpl hd.
  - rewrite Hrest. simpl. rewrite app_nil_r, Nat.add_0_r. reflexivity.
  - simpl in Hds. apply andb_prop in Hds as [Hd Hds]. rewrite Hd. simpl negb.
    cbv iota. rewrite (IH (S c)); try assumption.
    + rewrite <- app_assoc. simpl. do 3 f_equal. lia.
    + eapply drop_S_cons. exact Hdrop.
    + simpl in Hk. lia.
Qed.

Lemma scanDigits_run (ds rest input : list rune) (c : nat) :
  drop c input = ds ++ rest ->
  forallb isDigit ds = true ->
  isDigit (hd eof rest) = false ->
  scanDigits (mkReader input c) = Some (ds, mkReader input (c + length ds)).
Proof.
  intros Hdrop Hds Hrest. unfold scanDigits.
  rewrite (scanDigits_loop_run ds rest); try assumption; [reflexivity|].
  rewrite (fuel_at _ _ _ Hdrop), length_app. lia.
Qed.

(** Evaluate the tests of the dispatch on a rune that is known. *)
Ltac known_tests :=
  repeat match goal with
  | |- context [if ?b then _ else _] =>
    let v := eval vm_compute in b in
    match v with
    | true => change b with true
    | false => change b with false
    end; cbv iota
  end.

(** Decide a goal about the classes of a rune from the bounds on it. *)
Ltac rn_eval :=
  repeat match goal with
  | |- context [rn ?c] =>
    let v := eval vm_compute in (rn c) in change (rn c) with v
  | H : context [rn ?c] |- _ =>
    let v := eval vm_compute in (rn c) in change (rn c) with v in H
  end.

Ltac rune_solve :=
  unfold isIdentChar, isWhitespace, isLetter, isDigit,
    eof, dquote, squote, backslash, tab, newline, micro in *;
  rn_eval;
  repeat match goal with
  | H : _ /\ _ |- _ => destruct H
  | H : context [?a =? ?b] |- _ => destruct (Z.eqb_spec a b); try lia
  | H : context [?a <=? ?b] |- _ => destruct (Z.leb_spec a b); try lia
  | |- context [?a =? ?b] => destruct (Z.eqb_spec a b); try lia
  | |- context [?a <=? ?b] => destruct (Z.leb_spec a b); try lia
  end;
  simpl in *; repeat split; try congruence; try lia.

Lemma scanDigits_total (s : reader) :
  exists ds s', scanDigits s = Some (ds, s').
Proof.
  destruct s as [input c].
  destruct (span_exists isDigit (drop c input) eq_refl)
    as (ds & rest & Hdrop & Hds & Hrest).
  rewrite (scanDigits_run ds rest) by assumption. eauto.
Qed.

Lemma containsDot_app (a b : gostring) :
  containsDot (a ++ b) = containsDot a || containsDot b.
Proof. apply existsb_app. Qed.

Lemma containsDot_digits (ds : gostring) :
  forallb isDigit ds = true -> containsDot ds = false.
Proof.
  unfold containsDot.
  induction ds as [|d ds IH]; cbn [forallb existsb]; [reflexivity|].
  intros H. apply andb_prop in H as [Hd Hds]. rewrite (IH Hds), orb_false_r.
  unfold isDigit in Hd. apply andb_prop in Hd as [H0 H9].
  apply Z.leb_le in H0, H9. apply Z.eqb_neq.
  change (rn "0") with 48 in H0. change (rn "9") with 57 in H9.
  change (rn ".") with 46. lia.
Qed.

(** ** scanNumber *)

Lemma scanNumber_digits_int (pos : Pos) (buf : gostring) (input : list rune)
  (c : nat) (ds rest : list rune) :
  drop c input = ds ++ rest ->
  forallb isDigit ds = true ->
  isDigit (hd eof rest) = false ->
  (hd eof rest =? rn ".") && isDigit (hd eof (tl rest)) = false ->
  containsDot buf = false ->
  scanNumber_digits pos buf (mkReader input c)
  = if isUnit (hd eof rest) then
      Some (DURATION_VAL, pos, buf ++ ds ++ [hd eof rest],
            mkReader input (S (c + length ds)))
    else if hd eof rest =? rn "m" then
      if hd eof (tl rest) =? rn "s" then
        Some (DURATION_VAL, pos, buf ++ ds ++ [rn "m"; rn "s"],
              mkReader input (S (S (c + length ds))))
      else
        Some (DURATION_VAL, pos, buf ++ ds ++ [rn "m"],
              mkReader input (S (c + length ds)))
    else Some (NUMBER, pos, buf ++ ds, mkReader input (c + length ds)).
Proof.
  intros Hdrop Hds Hrest Hfrac Hbuf. unfold scanNumber_digits.
  rewrite (scanDigits_run ds rest) by assumption. cbn [mbind option_bind].
  assert (Hr : drop (c + length ds) input = rest)
    by (apply drop_plus_app; exact Hdrop).
  rewrite read_at, Hr.
  assert (Hnodot : containsDot (buf ++ ds) = false)
    by (rewrite containsDot_app, Hbuf, containsDot_digits by assumption;
        reflexivity).
  assert (Hsuffix :
    (if negb (containsDot (buf ++ ds)) then
       let '(ch0, _, s0) := read (mkReader input (c + length ds)) in
       if (ch0 =? rn "u") || (ch0 =? micro) || (ch0 =? rn "s")
          || (ch0 =? rn "h") || (ch0 =? rn "d") || (ch0 =? rn "w")
       then Some (DURATION_VAL, pos, (buf ++ ds) ++ [ch0], s0)
       else if ch0 =? rn "m" then
         let '(ch1, _, s1) := read s0 in
         if ch1 =? rn "s"
         then Some (DURATION_VAL, pos, ((buf ++ ds) ++ [ch0]) ++ [ch1], s1)
         else Some (DURATION_VAL, pos, (buf ++ ds) ++ [ch0], unread s1)
       else Some (NUMBER, pos, buf ++ ds, unread s0)
     else Some (NUMBER, pos, buf ++ ds, mkReader input (c + length ds)))
    = if isUnit (hd eof rest) then
        Some (DURATION_VAL, pos, buf ++ ds ++ [hd eof rest],
              mkReader input (S (c + length ds)))
      else if hd eof rest =? rn "m" then
        if hd eof (tl rest) =? rn "s" then
          Some (DURATION_VAL, pos, buf ++ ds ++ [rn "m"; rn "s"],
                mkReader input (S (S (c + length ds))))
        else
          Some (DURATION_VAL, pos, buf ++ ds ++ [rn "m"],
                mkReader input (S (c + length ds)))
      else Some (NUMBER, pos, buf ++ ds, mkReader input (c + length ds))).
  { rewrite Hnodot. simpl negb. cbv iota. rewrite read_at, Hr.
    fold (isUnit (hd eof rest)). destruct (isUnit (hd eof rest)).
    - rewrite <- app_assoc. reflexivity.
    - destruct (hd eof rest =? rn "m") eqn:Hm; [|reflexivity].
      apply Z.eqb_eq in Hm. rewrite Hm, read_at, drop_S_tl, Hr.
      destruct (hd eof (tl rest) =? rn "s") eqn:Hs.
      + apply Z.eqb_eq in Hs. rewrite Hs, <- !app_assoc. reflexivity.
      + rewrite <- !app_assoc. reflexivity. }
  destruct (hd eof rest =? rn ".") eqn:Hdot.
  - simpl in Hfrac. rewrite read_at, drop_S_tl, Hr, Hfrac. cbn [mbind option_bind].
    rewrite !unread_at. exact Hsuffix.
  - cbn [mbind option_bind]. rewrite unread_at. exact Hsuffix.
Qed.

Lemma scanNumber_digits_frac (pos : Pos) (buf : gostring) (input : list rune)
  (c : nat) (ds fs rest : list rune) :
  drop c input = ds ++ rn "." :: fs ++ rest ->
  forallb isDigit ds = true ->
  forallb isDigit fs = true ->
  fs <> [] ->
  isDigit (hd eof rest) = false ->
  scanNumber_digits pos buf (mkReader input c)
  = Some (NUMBER, pos, buf ++ ds ++ rn "." :: fs,
          mkReader input (c + length ds + 1 + length fs)).
Proof.
  intros Hdrop Hds Hfs Hne Hrest. unfold scanNumber_digits.
  rewrite (scanDigits_run ds (rn "." :: fs ++ rest)) by (assumption || reflexivity).
  cbn [mbind option_bind].
  assert (Hr : drop (c + length ds) input = rn "." :: fs ++ rest)
    by (apply drop_plus_app; exact Hdrop).
  rewrite read_at, Hr. simpl hd. change (rn "." =? rn ".") with true. cbv iota.
  destruct fs as [|f fs]; [congruence|]. simpl in Hfs.
  apply andb_prop in Hfs as [Hf Hfs].
  apply drop_S_cons in Hr. rewrite read_at, Hr. simpl hd. rewrite Hf.
  apply drop_S_cons in Hr.
  rewrite (scanDigits_run fs rest) by assumption. cbn [mbind option_bind].
  assert (Hdot : containsDot ((buf ++ ds) ++ [rn "."] ++ [f] ++ fs) = true).
  { rewrite !containsDot_app. simpl. rewrite !orb_true_r. reflexivity. }
  rewrite Hdot. simpl. rewrite <- !app_assoc. simpl.
  do 3 f_equal. lia.
Qed.

(** Whatever follows, the digits routine ends with a NUMBER or a DURATION
    whose literal extends the buffer it was given. *)
Lemma scanNumber_digits_shape (pos : Pos) (buf : gostring) (s : reader) :
  exists tok lit s',
    scanNumber_digits pos buf s = Some (tok, pos, buf ++ lit, s') /\
    (tok = NUMBER \/ tok = DURATION_VAL).
Proof.
  unfold scanNumber_digits.
  destruct (scanDigits_total s) as (ds & s1 & ->). cbn [mbind option_bind].
  destruct (read s1) as [[ch0 p0] s2].
  assert (exists lit s3,
    (if ch0 =? rn "." then
       let '(ch1, _, s) := read s2 in
       if isDigit ch1 then
         '(ds0, s) ← scanDigits s;
         Some ((buf ++ ds) ++ [ch0] ++ [ch1] ++ ds0, s)
       else Some (buf ++ ds, unread (unread s))
     else Some (buf ++ ds, unread s2)) = Some (buf ++ lit, s3))
    as (lit & s3 & ->).
  { destruct (ch0 =? rn ".").
    - destruct (read s2) as [[ch1 p1] s4]. destruct (isDigit ch1).
      + destruct (scanDigits_total s4) as (fs & s5 & ->).
        cbn [mbind option_bind]. rewrite <- app_assoc. eauto.
      + eauto.
    - eauto. }
  cbn [mbind option_bind].
  destruct (negb (containsDot (buf ++ lit))).
  - destruct (read s3) as [[ch2 p2] s6].
    destruct ((ch2 =? rn "u") || (ch2 =? micro) || (ch2 =? rn "s")
              || (ch2 =? rn "h") || (ch2 =? rn "d") || (ch2 =? rn "w")).
    + rewrite <- app_assoc. eauto 7.
    + destruct (ch2 =? rn "m").
      * destruct (read s6) as [[ch3 p3] s7]. destruct (ch3 =? rn "s");
          rewrite <- ?app_assoc; eauto 7.
      * eauto 7.
  - eauto 7.
Qed.

(** [Scan] on a digit goes on with the digits routine from that digit. *)
Lemma Scan_digit (kw : gmap (list Z) Z) (input : list rune) (c : nat) :
  isDigit (hd eof (drop c input)) = true ->
  Scan kw (mkReader input c)
  = scanNumber_digits (posAt input c) [] (mkReader input c).
Proof.
  intros Hd. unfold Scan. rewrite read_at.
  assert (Hcls : isWhitespace (hd eof (drop c input)) = false /\
                 isLetter (hd eof (drop c input)) = false /\
                 (hd eof (drop c input) =? rn "_") = false /\
                 (hd eof (drop c input) =? rn "+") = false /\
                 (hd eof (drop c input) =? rn "-") = false /\
                 (hd eof (drop c input) =? rn ".") = false).
  { revert Hd. generalize (hd eof (drop c input)). intros x Hx. rune_solve. }
  destruct Hcls as (-> & -> & -> & Hp & Hm & Hdot). rewrite Hd. cbv iota.
  simpl orb. cbv iota.
  unfold scanNumber. rewrite curr_at, Hp, Hm, Hdot. simpl orb. cbv iota.
  rewrite unread_at. reflexivity.
Qed.

(** [Scan] on a full stop that a digit follows. *)
Lemma Scan_dot_digit (kw : gmap (list Z) Z) (input : list rune) (c : nat)
  (rest : list rune) :
  drop c input = rn "." :: rest ->
  isDigit (hd eof rest) = true ->
  Scan kw (mkReader input c)
  = scanNumber_digits (posAt input c) [] (mkReader input c).
Proof.
  intros Hdrop Hd. unfold Scan. rewrite read_at, Hdrop. simpl hd.
  known_tests. unfold Scan_switch. known_tests.
  rewrite read_at, (drop_S_cons _ _ _ _ Hdrop), Hd, unread_at.
  unfold scanNumber. rewrite curr_at, Hdrop. simpl hd. known_tests.
  rewrite read_at, (drop_S_cons _ _ _ _ Hdrop), Hd, !unread_at. reflexivity.
Qed.

(** [Scan] on a sign. *)
Lemma Scan_sign (kw : gmap (list Z) Z) (input : list rune) (c : nat)
  (sg : rune) (rest : list rune) :
  sg = rn "+" \/ sg = rn "-" ->
  drop c input = sg :: rest ->
  Scan kw (mkReader input c)
  = if startsNumber rest
    then scanNumber_digits (posAt input c) [sg] (mkReader input (S c))
    else Some (if sg =? rn "+" then PLUS else MINUS, posAt input c, [],
               mkReader input (S c)).
Proof.
  intros Hsg Hdrop. unfold Scan. rewrite read_at, Hdrop. simpl hd.
  destruct Hsg as [-> | ->]; known_tests; unfold Scan_switch; known_tests;
    unfold scanNumber; rewrite curr_at, Hdrop; simpl hd; known_tests;
    rewrite read_at, (drop_S_cons _ _ _ _ Hdrop), read_at, drop_S_tl,
      (drop_S_cons _ _ _ _ Hdrop), !unread_at;
    fold (startsNumber rest); destruct (startsNumber rest); reflexivity.
Qed.

(** C1, as the code has it: a full stop that no digit follows is the DOT
    punctuation token with an empty literal; the ILLEGAL return of
    [scanNumber] is never reached from [Scan]. *)
Theorem Scan_dot_not_digit (kw : gmap (list Z) Z) (s : reader) (rest : list rune) :
  unconsumed s = rn "." :: rest ->
  isDigit (hd eof rest) = false ->
  Scan kw s
  = Some (DOT, posAt (src s) (cur s), [], mkReader (src s) (S (cur s))).
Proof.
  destruct s as [input c]. unfold unconsumed. simpl. intros Hdrop Hrest.
  unfold Scan. rewrite read_at, Hdrop. simpl hd. known_tests.
  unfold Scan_switch. known_tests.
  rewrite read_at, (drop_S_cons _ _ _ _ Hdrop), Hrest. reflexivity.
Qed.

Lemma isUnit_not_digit (u : rune) :
  isUnit u = true \/ u = rn "m" ->
  isDigit u = false /\ (u =? rn ".") = false.
Proof. unfold isUnit. intros [H | ->]; [|split; reflexivity]. rune_solve. Qed.

Lemma hd_app_digits (ds tail : list rune) :
  forallb isDigit ds = true -> ds <> [] -> isDigit (hd eof (ds ++ tail)) = true.
Proof.
  destruct ds as [|d ds]; [congruence|]. simpl. intros H _.
  apply andb_prop in H as [H _]. exact H.
Qed.

(** [Scan] at the start of a numeric literal: an optional sign, then either
    a digit or a full stop and a digit.  The digits routine takes over after
    the sign, with the sign in its buffer. *)
Lemma Scan_number_entry (kw : gmap (list Z) Z) (input : list rune) (c : nat)
  (sign ds tail : list rune) :
  isSign sign ->
  forallb isDigit ds = true ->
  ds <> [] \/ startsNumber tail = true ->
  drop c input = sign ++ ds ++ tail ->
  Scan kw (mkReader input c)
  = scanNumber_digits (posAt input c) sign (mkReader input (c + length sign)).
Proof.
  intros Hsign Hds Hstart Hdrop.
  assert (Hnum : startsNumber (ds ++ tail) = true).
  { destruct Hstart as [Hne | Hst].
    - unfold startsNumber. rewrite hd_app_digits by assumption. reflexivity.
    - destruct ds as [|d ds]; [exact Hst|].
      unfold startsNumber. rewrite hd_app_digits by (assumption || congruence).
      reflexivity. }
  destruct Hsign as [-> | [-> | ->]]; simpl in Hdrop; simpl length.
  - rewrite Nat.add_0_r. unfold startsNumber in Hnum.
    destruct (isDigit (hd eof (ds ++ tail))) eqn:Hd.
    + apply Scan_digit. rewrite Hdrop. exact Hd.
    + simpl in Hnum. apply andb_prop in Hnum as [Hdot Hd2].
      apply Z.eqb_eq in Hdot.
      destruct (ds ++ tail) as [|x t] eqn:Happ; [discriminate Hd2|].
      simpl in Hdot, Hd2. subst x.
      eapply Scan_dot_digit; [exact Hdrop | exact Hd2].
  - rewrite (Scan_sign kw input c (rn "+") (ds ++ tail)) by auto.
    rewrite Hnum, Nat.add_1_r. reflexivity.
  - rewrite (Scan_sign kw input c (rn "-") (ds ++ tail)) by auto.
    rewrite Hnum, Nat.add_1_r. reflexivity.
Qed.

Lemma containsDot_sign (sign : list rune) : isSign sign -> containsDot sign = false.
Proof. intros [-> | [-> | ->]]; reflexivity. Qed.

(** C2: after the digits of a literal without a fractional point, one of
    [u], the micro sign, [s], [h], [d], [w] gives a DURATION whose literal
    ends with that unit, and [m] gives a DURATION ending with [ms] when an
    [s] follows and with [m] otherwise; once a fractional part
    [. fs] has been consumed the token is a NUMBER and whatever follows,
    a unit included, is left unconsumed. *)
Theorem Scan_duration_only_without_fraction (kw : gmap (list Z) Z) (s : reader)
  (sign ds rest : list rune) :
  isSign sign ->
  forallb isDigit ds = true ->
  (forall u : rune,
     ds <> [] ->
     unconsumed s = sign ++ ds ++ u :: rest ->
     (isUnit u = true ->
      exists s', Scan kw s
                 = Some (DURATION_VAL, posAt (src s) (cur s),
                         sign ++ ds ++ [u], s') /\
                 unconsumed s' = rest) /\
     (u = rn "m" ->
      exists s', Scan kw s
                 = Some (DURATION_VAL, posAt (src s) (cur s),
                         sign ++ ds ++
                           (if hd eof rest =? rn "s" then [rn "m"; rn "s"]
                            else [rn "m"]), s') /\
                 unconsumed s'
                 = if hd eof rest =? rn "s" then tl rest else rest)) /\
  (forall fs : list rune,
     fs <> [] ->
     forallb isDigit fs = true ->
     isDigit (hd eof rest) = false ->
     unconsumed s = sign ++ ds ++ rn "." :: fs ++ rest ->
     exists s', Scan kw s
                = Some (NUMBER, posAt (src s) (cur s),
                        sign ++ ds ++ rn "." :: fs, s') /\
                unconsumed s' = rest).
Proof.
  intros Hsign Hds. destruct s as [input c]. unfold unconsumed. simpl. split.
  - intros u Hne Hdrop.
    assert (Hentry := Scan_number_entry kw input c sign ds (u :: rest)
                        Hsign Hds (or_introl Hne) Hdrop).
    assert (Hr : drop (c + length sign) input = ds ++ u :: rest)
      by (apply drop_plus_app; exact Hdrop).
    assert (Hint : forall Hu : isDigit u = false /\ (u =? rn ".") = false,
      scanNumber_digits (posAt input c) sign (mkReader input (c + length sign))
      = _) by (intros [Hu1 Hu2];
               apply (scanNumber_digits_int _ sign _ _ ds (u :: rest) Hr Hds);
               [exact Hu1 | simpl; rewrite Hu2; reflexivity
               | apply containsDot_sign; exact Hsign]).
    simpl hd in Hint. simpl tl in Hint. split.
    + intros Hu. rewrite Hentry, (Hint (isUnit_not_digit u (or_introl Hu))), Hu.
      eexists. split; [reflexivity|].
      unfold unconsumed. simpl.
      replace (S (c + length sign + length ds))
        with (c + length (sign ++ ds ++ [u]))%nat
        by (rewrite !length_app; simpl; lia).
      apply drop_plus_app. rewrite <- !app_assoc. exact Hdrop.
    + intros ->. rewrite Hentry, (Hint (isUnit_not_digit _ (or_intror eq_refl))).
      change (isUnit (rn "m")) with false. change (rn "m" =? rn "m") with true.
      cbv iota. destruct (hd eof rest =? rn "s") eqn:Hs.
      * eexists. split; [reflexivity|]. unfold unconsumed. simpl.
        rewrite drop_S_tl. f_equal.
        replace (S (c + length sign + length ds))
          with (c + length (sign ++ ds ++ [rn "m"]))%nat
          by (rewrite !length_app; simpl; lia).
        apply drop_plus_app. rewrite <- !app_assoc. exact Hdrop.
      * eexists. split; [reflexivity|]. unfold unconsumed. simpl.
        replace (S (c + length sign + length ds))
          with (c + length (sign ++ ds ++ [rn "m"]))%nat
          by (rewrite !length_app; simpl; lia).
        apply drop_plus_app. rewrite <- !app_assoc. exact Hdrop.
  - intros fs Hne Hfs Hrest Hdrop.
    assert (Hstart : ds <> [] \/ startsNumber (rn "." :: fs ++ rest) = true).
    { right. unfold startsNumber. simpl hd. simpl tl.
      rewrite hd_app_digits by assumption. reflexivity. }
    rewrite (Scan_number_entry kw input c sign ds (rn "." :: fs ++ rest)
               Hsign Hds Hstart Hdrop).
    assert (Hr : drop (c + length sign) input = ds ++ rn "." :: fs ++ rest)
      by (apply drop_plus_app; exact Hdrop).
    rewrite (scanNumber_digits_frac _ sign _ _ ds fs rest Hr Hds Hfs Hne Hrest).
    eexists. split; [reflexivity|]. unfold unconsumed. simpl.
    replace (c + length sign + length ds + 1 + length fs)%nat
      with (c + length (sign ++ ds ++ rn "." :: fs))%nat
      by (rewrite !length_app; simpl; lia).
    apply drop_plus_app. rewrite <- !app_assoc. exact Hdrop.
Qed.


(** ** scanWhitespace *)

Lemma scanWhitespace_loop_run (ws rest input : list rune) :
  forall (c : nat) (buf : gostring) (k : nat),
    drop c input = ws ++ rest ->
    forallb isWhitespace ws = true ->
    isWhitespace (hd eof rest) = false ->
    (length ws < k)%nat ->
    scanWhitespace_loop k (mkReader input c) buf
    = Some (buf ++ ws,
            mkReader input
              (if hd eof rest =? eof then S (c + length ws) else c + length ws)).
Proof.
  induction ws as [|w ws IH]; intros c buf k Hdrop Hws Hrest Hk;
    (destruct k as [|k]; [simpl in Hk; lia|]); cbn [scanWhitespace_loop];
    rewrite read_at, Hdrop; simpl hd.
  - rewrite Hrest, app_nil_r, Nat.add_0_r. simpl.
    destruct (hd eof rest =? eof); reflexivity.
  - simpl in Hws. apply andb_prop in Hws as [Hw Hws].
    assert (Hne : (w =? eof) = false) by (clear -Hw; rune_solve).
    rewrite Hne, Hw. simpl negb. cbv iota.
    rewrite (IH (S c)); try assumption.
    + rewrite <- app_assoc. simpl.
      replace (c + S (length ws))%nat with (S (c + length ws)) by lia.
      reflexivity.
    + eapply drop_S_cons. exact Hdrop.
    + simpl in Hk. lia.
Qed.

(** C7: a maximal run of whitespace is returned as one WS token whose
    literal is the whole run; what follows the run is left unconsumed
    (the rune zero, which the reader also uses as its end-of-stream
    sentinel, ends the run and is dropped). *)
Theorem Scan_whitespace_run (kw : gmap (list Z) Z) (s : reader)
  (ws rest : list rune) :
  ws <> [] ->
  forallb isWhitespace ws = true ->
  isWhitespace (hd eof rest) = false ->
  unconsumed s = ws ++ rest ->
  exists s',
    Scan kw s = Some (WS, posAt (src s) (cur s), ws, s') /\
    unconsumed s' = if hd eof rest =? eof then tl rest else rest.
Proof.
  intros Hne Hws Hrest. destruct s as [input c]. unfold unconsumed. simpl.
  intros Hdrop. destruct ws as [|w ws]; [congruence|].
  simpl in Hws. apply andb_prop in Hws as [Hw Hws]. simpl in Hdrop.
  unfold Scan. rewrite read_at, Hdrop. simpl hd. rewrite Hw.
  unfold scanWhitespace. rewrite curr_at, Hdrop. simpl hd.
  assert (Hr : drop (S c) input = ws ++ rest)
    by (eapply drop_S_cons; exact Hdrop).
  rewrite (scanWhitespace_loop_run ws rest input (S c)); try assumption.
  - cbn [mbind option_bind]. eexists. split; [reflexivity|].
    unfold unconsumed. simpl.
    assert (Hr' : drop (S (c + length ws)) input = rest).
    { replace (S (c + length ws)) with (S c + length ws)%nat by lia.
      apply drop_plus_app. exact Hr. }
    destruct (hd eof rest =? eof).
    + rewrite drop_S_tl. simpl. rewrite Hr'. reflexivity.
    + exact Hr'.
  - rewrite (fuel_at _ _ _ Hr), length_app. lia.
Qed.

(** ** scanIdent *)

Lemma ScanBareIdent_loop_run (id rest input : list rune) :
  forall (c : nat) (buf : gostring) (k : nat),
    drop c input = id ++ rest ->
    forallb isIdentChar id = true ->
    isIdentChar (hd eof rest) = false ->
    (length id < k)%nat ->
    ScanBareIdent_loop k (mkReader input c) buf
    = Some (buf ++ id,
            mkReader input
              (if hd eof rest =? eof then S (c + length id) else c + length id)).
Proof.
  induction id as [|x id IH]; intros c buf k Hdrop Hid Hrest Hk;
    (destruct k as [|k]; [simpl in Hk; lia|]); cbn [ScanBareIdent_loop];
    rewrite ReadRune_at, Hdrop; simpl hd.
  - rewrite Hrest, app_nil_r, Nat.add_0_r. simpl.
    destruct (hd eof rest =? eof); reflexivity.
  - simpl in Hid. apply andb_prop in Hid as [Hx Hid].
    assert (Hne : (x =? eof) = false) by (clear -Hx; rune_solve).
    rewrite Hne, Hx. simpl negb. cbv iota.
    rewrite (IH (S c)); try assumption.
    + rewrite <- app_assoc. simpl.
      replace (c + S (length id))%nat with (S (c + length id)) by lia.
      reflexivity.
    + eapply drop_S_cons. exact Hdrop.
    + simpl in Hk. lia.
Qed.

Lemma identEnd_not_ident (rest : list rune) :
  identEnd rest -> isIdentChar (hd eof rest) = false.
Proof. intros [-> | [H _]]; [reflexivity | exact H]. Qed.

Lemma scanIdent_run (kw : gmap (list Z) Z) (input : list rune) (c : nat)
  (w rest : list rune) :
  w <> [] ->
  forallb isIdentChar w = true ->
  identEnd rest ->
  drop c input = w ++ rest ->
  exists s',
    unconsumed s' = rest /\
    scanIdent kw (mkReader input c)
    = if negb (Lookup kw w =? IDENT)
      then Some (Lookup kw w, posAt input c, [], s')
      else Some (IDENT, posAt input c, w, s').
Proof.
  intros Hne Hw Hend Hdrop.
  assert (Hnid := identEnd_not_ident rest Hend).
  unfold scanIdent. rewrite read_at, unread_at.
  rewrite (fuel_at _ _ _ Hdrop).
  assert (Hfuel : exists k, S (length (w ++ rest)) = S (S k))
    by (destruct w; [congruence | simpl; eauto]).
  destruct Hfuel as [k ->].
  assert (Hx : isIdentChar (hd eof (w ++ rest)) = true).
  { destruct w; [congruence|]. simpl in Hw. apply andb_prop in Hw as [Hx _].
    exact Hx. }
  assert (Hxe : (hd eof (w ++ rest) =? eof) = false /\
                (hd eof (w ++ rest) =? dquote) = false)
    by (clear -Hx; revert Hx; generalize (hd eof (w ++ rest)); intros x Hx;
        rune_solve).
  destruct Hxe as [Hxe Hxq].
  cbn [scanIdent_loop].
  rewrite read_at, Hdrop, Hxe, Hxq, Hx, unread_at.
  unfold ScanBareIdent.
  rewrite (ScanBareIdent_loop_run w rest input c); try assumption;
    [|rewrite (fuel_at _ _ _ Hdrop), length_app; lia].
  cbn [mbind option_bind app scanIdent_loop].
  assert (Hr : drop (c + length w) input = rest)
    by (apply drop_plus_app; exact Hdrop).
  destruct Hend as [-> | (_ & Hq & He)].
  - change (hd eof [] =? eof) with true. cbv iota.
    rewrite read_at, drop_S_tl, Hr. simpl hd.
    change (eof =? eof) with true. cbv iota. cbn [mbind option_bind].
    exists (mkReader input (S (S (c + length w)))). split.
    + unfold unconsumed. simpl. rewrite !drop_S_tl, Hr. reflexivity.
    + destruct (negb (Lookup kw w =? IDENT)); reflexivity.
  - apply Z.eqb_neq in Hq, He. rewrite He, read_at, Hr, He, Hq, Hnid, unread_at.
    cbn [mbind option_bind].
    exists (mkReader input (c + length w)). split; [exact Hr|].
    destruct (negb (Lookup kw w =? IDENT)); reflexivity.
Qed.

Lemma isWordChar_isIdentChar (w : list rune) :
  forallb isWordChar w = true -> forallb isIdentChar w = true.
Proof.
  induction w as [|x w IH]; simpl; [reflexivity|]. intros H.
  apply andb_prop in H as [Hx Hw]. rewrite (IH Hw), andb_true_r.
  unfold isWordChar in Hx. unfold isIdentChar.
  destruct (isLetter x); [reflexivity|]. simpl in Hx. rewrite Hx.
  apply orb_true_r.
Qed.

(** [Scan] on a run of letters and underscores that ends the input or is
    followed by a rune that cannot continue an identifier. *)
Lemma Scan_word (kw : gmap (list Z) Z) (input : list rune) (c : nat)
  (w rest : list rune) :
  w <> [] ->
  forallb isWordChar w = true ->
  identEnd rest ->
  drop c input = w ++ rest ->
  exists s',
    unconsumed s' = rest /\
    Scan kw (mkReader input c)
    = if negb (Lookup kw w =? IDENT)
      then Some (Lookup kw w, posAt input c, [], s')
      else Some (IDENT, posAt input c, w, s').
Proof.
  intros Hne Hw Hend Hdrop.
  destruct (scanIdent_run kw input c w rest Hne (isWordChar_isIdentChar w Hw)
              Hend Hdrop) as (s' & Hs' & Hscan).
  exists s'. split; [exact Hs'|]. rewrite <- Hscan.
  destruct w as [|x w']; [congruence|]. simpl in Hw.
  apply andb_prop in Hw as [Hx _]. unfold isWordChar in Hx.
  unfold Scan. rewrite read_at, Hdrop. simpl hd. rewrite Hx, unread_at.
  assert (Hws : isWhitespace x = false) by (clear -Hx; rune_solve).
  rewrite Hws. reflexivity.
Qed.

(** C5: a run of letters and underscores (ending the input, or followed by
    a rune that cannot continue an identifier) is returned as one token
    that spans the run: the kind the keyword table holds for the
    lower-cased run, with an empty literal, or IDENT with the run as
    literal when the table has no entry for it.  The table is assumed to
    hold no entry of kind IDENT, as the registration contract requires. *)
Theorem Scan_word_keyword_or_ident (kw : gmap (list Z) Z) (s : reader)
  (w rest : list rune) :
  w <> [] ->
  forallb isWordChar w = true ->
  identEnd rest ->
  (forall name : list Z, kw !! name <> Some IDENT) ->
  unconsumed s = w ++ rest ->
  exists s',
    unconsumed s' = rest /\
    Scan kw s
    = Some (match kw !! ToLower w with
            | Some tok => (tok, posAt (src s) (cur s), [])
            | None => (IDENT, posAt (src s) (cur s), w)
            end, s').
Proof.
  intros Hne Hw Hend Hkw. destruct s as [input c]. unfold unconsumed. simpl.
  intros Hdrop.
  destruct (Scan_word kw input c w rest Hne Hw Hend Hdrop) as (s' & Hs' & ->).
  exists s'. split; [exact Hs'|]. unfold Lookup.
  destruct (kw !! ToLower w) as [tok|] eqn:Hlook.
  - assert (Htok : (tok =? IDENT) = false).
    { apply Z.eqb_neq. intros ->. exact (Hkw _ Hlook). }
    rewrite Htok. reflexivity.
  - reflexivity.
Qed.

(** ** scanString and quoted identifiers *)

Lemma ScanString_loop_plain (ending : rune) (body rest input : list rune) :
  forall (c : nat) (buf : gostring) (k : nat),
    drop c input = body ++ rest ->
    forallb (plainChar ending) body = true ->
    hd eof rest = ending \/ hd eof rest = eof ->
    (length body < k)%nat ->
    ScanString_loop k ending (mkReader input c) buf
    = Some (buf ++ body,
            if hd eof rest =? ending then noError else errBadString,
            mkReader input (S (c + length body))).
Proof.
  induction body as [|x body IH]; intros c buf k Hdrop Hbody Hrest Hk;
    (destruct k as [|k]; [simpl in Hk; lia|]); cbn [ScanString_loop];
    rewrite ReadRune_at, Hdrop; simpl hd.
  - rewrite app_nil_r, Nat.add_0_r.
    destruct (hd eof rest =? ending) eqn:He; [reflexivity|].
    destruct Hrest as [Hr | Hr].
    + apply Z.eqb_neq in He. congruence.
    + rewrite Hr. reflexivity.
  - simpl in Hbody. apply andb_prop in Hbody as [Hx Hbody].
    unfold plainChar in Hx. apply andb_prop in Hx as [Hx He].
    apply andb_prop in Hx as [Hq Hb].
    apply negb_true_iff in Hq, Hb, He. rewrite Hq, He, Hb.
    rewrite (IH (S c)); try assumption.
    + rewrite <- app_assoc. simpl.
      replace (c + S (length body))%nat with (S (c + length body)) by lia.
      reflexivity.
    + eapply drop_S_cons. exact Hdrop.
    + simpl in Hk. lia.
Qed.

Lemma hd_drop_not_eof (input : list rune) (c : nat) :
  hd eof (drop c input) <> eof -> (c < length input)%nat.
Proof.
  intros H. destruct (Nat.lt_ge_cases c (length input)) as [Hlt | Hge];
    [exact Hlt|].
  rewrite drop_ge in H by exact Hge. simpl in H. congruence.
Qed.

Lemma ScanString_loop_total (ending : rune) (input : list rune) :
  forall (k c : nat) (buf : gostring),
    (length input - c < k)%nat ->
    exists r, ScanString_loop k ending (mkReader input c) buf = Some r.
Proof.
  induction k as [|k IH]; intros c buf Hk; [lia|].
  cbn [ScanString_loop]. rewrite ReadRune_at.
  destruct (hd eof (drop c input) =? ending); [eauto|].
  destruct (hd eof (drop c input) =? eof) eqn:He; [eauto|].
  apply Z.eqb_neq, hd_drop_not_eof in He.
  destruct (hd eof (drop c input) =? backslash).
  - rewrite ReadRune_at.
    destruct ((hd eof (drop (S c) input) =? dquote)
              || (hd eof (drop (S c) input) =? squote)); [|eauto].
    apply IH. lia.
  - apply IH. lia.
Qed.

Lemma scanString_total (s : reader) :
  exists tok0 pos0 lit0 s', scanString s = Some (tok0, pos0, lit0, s').
Proof.
  unfold scanString. destruct (curr (unread s)) as [ch pos].
  assert (exists r, ScanString (unread s) = Some r) as [[[lit err] s'] ->].
  { unfold ScanString. destruct (unread s) as [input c]. rewrite ReadRune_at.
    destruct (hd eof (drop c input) =? eof); [eauto|].
    apply ScanString_loop_total. unfold fuel. simpl. lia. }
  cbn [mbind option_bind].
  destruct err; [eauto 6 | eauto 6 |].
  destruct (curr s') as [ch' pos']. eauto 6.
Qed.

(** [Scan] on a double quote hands the result of [scanString] over,
    renaming a STRING to an IDENT at the position of the quote. *)
Lemma Scan_dquote (kw : gmap (list Z) Z) (input : list rune) (c : nat)
  (rest : list rune) :
  drop c input = dquote :: rest ->
  Scan kw (mkReader input c)
  = '(tok0, pos0, lit0, s') ← scanString (mkReader input (S c));
    if (tok0 =? BADSTRING) || (tok0 =? BADESCAPE)
    then Some (tok0, pos0, lit0, s')
    else Some (IDENT, posAt input c, lit0, s').
Proof.
  intros Hdrop. unfold Scan. rewrite read_at, Hdrop. simpl hd. known_tests.
  unfold Scan_switch. known_tests. rewrite unread_at.
  unfold scanIdent. rewrite read_at, unread_at. unfold fuel.
  cbn [scanIdent_loop]. rewrite read_at, Hdrop. simpl hd. known_tests.
  destruct (scanString (mkReader input (S c))) as [[[[tok0 pos0] lit0] s']|];
    [|reflexivity].
  cbn [mbind option_bind].
  destruct ((tok0 =? BADSTRING) || (tok0 =? BADESCAPE)); reflexivity.
Qed.

(** [scanString] over a body without escapes: closed by the delimiter it is
    a STRING, cut by the end of the input a BADSTRING. *)
Lemma scanString_plain (input : list rune) (c : nat) (body rest : list rune) :
  drop c input = dquote :: body ++ rest ->
  forallb (plainChar dquote) body = true ->
  hd eof rest = dquote \/ hd eof rest = eof ->
  scanString (mkReader input (S c))
  = Some (if hd eof rest =? dquote then STRING else BADSTRING,
          (curr (mkReader input c)).2, body,
          mkReader input (S (S (c + length body)))).
Proof.
  intros Hdrop Hbody Hrest. unfold scanString. rewrite unread_at.
  destruct (curr (mkReader input c)) as [ch pos] eqn:Hcurr.
  unfold ScanString. rewrite ReadRune_at, Hdrop. simpl hd. known_tests.
  assert (Hr : drop (S c) input = body ++ rest)
    by (eapply drop_S_cons; exact Hdrop).
  rewrite (ScanString_loop_plain dquote body rest input (S c)); try assumption;
    [|rewrite (fuel_at _ _ _ Hr), length_app; lia].
  cbn [mbind option_bind]. simpl.
  destruct (hd eof rest =? dquote); reflexivity.
Qed.

(** C6: on a double quote [Scan] runs the string scan from that quote.  A
    BADSTRING or BADESCAPE result comes back as it is; any other result
    becomes an IDENT at the position of the quote, with the literal of the
    string scan.  For a body without escapes that is closed by a double
    quote the literal is the body without its delimiters; when the input
    ends before a closing quote the token is BADSTRING with the body read
    so far. *)
Theorem Scan_quoted_ident (kw : gmap (list Z) Z) (s : reader) (rest : list rune) :
  unconsumed s = dquote :: rest ->
  (exists tok0 pos0 lit0 s',
     scanString (mkReader (src s) (S (cur s))) = Some (tok0, pos0, lit0, s') /\
     Scan kw s
     = Some (if (tok0 =? BADSTRING) || (tok0 =? BADESCAPE)
             then (tok0, pos0, lit0)
             else (IDENT, posAt (src s) (cur s), lit0), s')) /\
  (forall body rest' : list rune,
     forallb (plainChar dquote) body = true ->
     rest = body ++ dquote :: rest' ->
     exists s',
       Scan kw s = Some (IDENT, posAt (src s) (cur s), body, s') /\
       unconsumed s' = rest') /\
  (forall body : list rune,
     forallb (plainChar dquote) body = true ->
     rest = body ->
     exists pos0 s', Scan kw s = Some (BADSTRING, pos0, body, s')).
Proof.
  destruct s as [input c]. unfold unconsumed. simpl. intros Hdrop.
  rewrite (Scan_dquote kw input c rest Hdrop). split; [|split].
  - destruct (scanString_total (mkReader input (S c)))
      as (tok0 & pos0 & lit0 & s' & Hs).
    exists tok0, pos0, lit0, s'. split; [exact Hs|]. rewrite Hs.
    cbn [mbind option_bind].
    destruct ((tok0 =? BADSTRING) || (tok0 =? BADESCAPE)); reflexivity.
  - intros body rest' Hbody ->.
    rewrite (scanString_plain input c body (dquote :: rest') Hdrop Hbody)
      by (left; reflexivity).
    simpl hd. known_tests. cbn [mbind option_bind]. known_tests.
    eexists. split; [reflexivity|]. unfold unconsumed. simpl.
    replace (S (S (c + length body)))
      with (c + length (dquote :: body ++ [dquote]))%nat
      by (simpl; rewrite length_app; simpl; lia).
    apply drop_plus_app. simpl. rewrite <- app_assoc. exact Hdrop.
  - intros body Hbody ->.
    rewrite (scanString_plain input c body [])
      by (rewrite ?app_nil_r; auto).
    simpl hd. known_tests. cbn [mbind option_bind]. known_tests. eauto.
Qed.

(** ** The kinds [Scan] returns *)

Lemma scanString_kind (s : reader) (tok : Token) (pos : Pos) (lit : gostring)
  (s' : reader) :
  scanString s = Some (tok, pos, lit, s') ->
  tok = STRING \/ tok = BADSTRING \/ tok = BADESCAPE.
Proof.
  unfold scanString. destruct (curr (unread s)) as [ch p].
  destruct (ScanString (unread s)) as [[[l err] s1]|]; [|discriminate].
  cbn [mbind option_bind]. destruct err.
  - intros [= <- _ _ _]. auto.
  - intros [= <- _ _ _]. auto.
  - destruct (curr s1). intros [= <- _ _ _]. auto.
Qed.

Lemma scanIdent_loop_kind (k : nat) :
  forall (p : Pos) (s : reader) (buf : gostring) (tok : Token) (pos : Pos)
    (lit : gostring) (s' : reader),
    scanIdent_loop k p s buf = Some (inl (tok, pos, lit, s')) ->
    tok = IDENT \/ tok = BADSTRING \/ tok = BADESCAPE.
Proof.
  induction k as [|k IH]; intros p s buf tok pos lit s'; [discriminate|].
  cbn [scanIdent_loop]. destruct (read s) as [[ch p0] s0].
  destruct (ch =? eof); [discriminate|].
  destruct (ch =? dquote).
  - destruct (scanString s0) as [[[[tok0 pos0] lit0] s1]|] eqn:Hs;
      [|discriminate].
    cbn [mbind option_bind].
    destruct ((tok0 =? BADSTRING) || (tok0 =? BADESCAPE)) eqn:Hbad.
    + intros [= <- _ _ _]. apply orb_prop in Hbad as [H | H];
        apply Z.eqb_eq in H; auto.
    + intros [= <- _ _ _]. auto.
  - destruct (isIdentChar ch); [|discriminate].
    destruct (ScanBareIdent (unread s0)) as [[id s1]|]; [|discriminate].
    cbn [mbind option_bind]. apply IH.
Qed.

Lemma scanIdent_kind (kw : gmap (list Z) Z) (s : reader) (tok : Token)
  (pos : Pos) (lit : gostring) (s' : reader) :
  scanIdent kw s = Some (tok, pos, lit, s') ->
  (tok = IDENT \/ tok = BADSTRING \/ tok = BADESCAPE) \/
  (lit = [] /\ tok <> IDENT /\ exists name, kw !! name = Some tok).
Proof.
  unfold scanIdent. destruct (read s) as [[ch p] s0].
  destruct (scanIdent_loop (fuel (unread s0)) p (unread s0) [])
    as [[[[[tok0 pos0] lit0] s1] | [l s1]]|] eqn:Hloop; [| |discriminate];
    cbn [mbind option_bind].
  - intros [= <- _ _ _]. left. eapply scanIdent_loop_kind. exact Hloop.
  - destruct (negb (Lookup kw l =? IDENT)) eqn:Hk.
    + intros [= <- _ <- _]. right. split; [reflexivity|].
      apply negb_true_iff, Z.eqb_neq in Hk. split; [exact Hk|].
      unfold Lookup in *. destruct (kw !! ToLower l) eqn:Hl; [eauto|congruence].
    + intros [= <- _ _ _]. auto.
Qed.

Lemma scanNumber_kind (s : reader) (tok : Token) (pos : Pos) (lit : gostring)
  (s' : reader) :
  scanNumber s = Some (tok, pos, lit, s') ->
  (lit = [] /\ (tok = PLUS \/ tok = MINUS)) \/
  tok = ILLEGAL \/ tok = NUMBER \/ tok = DURATION_VAL.
Proof.
  assert (Hdig : forall p buf s0,
    scanNumber_digits p buf s0 = Some (tok, pos, lit, s') ->
    tok = NUMBER \/ tok = DURATION_VAL).
  { intros p buf s0 H.
    destruct (scanNumber_digits_shape p buf s0) as (t & l & s1 & Heq & Ht).
    rewrite Heq in H. injection H as <- _ _ _. exact Ht. }
  unfold scanNumber. destruct (curr s) as [ch p].
  destruct ((ch =? rn "+") || (ch =? rn "-")).
  - destruct (read s) as [[ch1 p1] s1]. destruct (read s1) as [[ch2 p2] s2].
    destruct (isDigit ch1 || (ch1 =? rn ".") && isDigit ch2);
      [intros H; apply Hdig in H; tauto|].
    destruct (ch =? rn "+"); [intros [= <- _ <- _]; auto|].
    destruct (ch =? rn "-"); [intros [= <- _ <- _]; auto|].
    intros H; apply Hdig in H; tauto.
  - destruct (ch =? rn ".").
    + destruct (read s) as [[ch1 p1] s1].
      destruct (negb (isDigit ch1)); [intros [= <- _ _ _]; auto|].
      intros H; apply Hdig in H; tauto.
    + intros H; apply Hdig in H; tauto.
Qed.

Lemma scanWhitespace_kind (s : reader) (tok : Token) (pos : Pos)
  (lit : gostring) (s' : reader) :
  scanWhitespace s = Some (tok, pos, lit, s') -> tok = WS.
Proof.
  unfold scanWhitespace. destruct (curr s) as [ch p].
  destruct (scanWhitespace_loop (fuel s) s [ch]) as [[b s1]|]; [|discriminate].
  cbn [mbind option_bind]. intros [= <- _ _ _]. reflexivity.
Qed.

(** The four ways a result of [Scan] comes about: the end of the stream; a
    fixed punctuation or operator token; a keyword of the table; a kind
    that comes with a literal. *)
Lemma Scan_shape (kw : gmap (list Z) Z) (s : reader) (tok : Token) (pos : Pos)
  (lit : gostring) (s' : reader) :
  Scan kw s = Some (tok, pos, lit, s') ->
  (tok = EOF /\ lit = [] /\ hd eof (unconsumed s) = eof /\
   s' = mkReader (src s) (S (cur s))) \/
  (lit = [] /\ (isPunctuation tok = true \/ isOperator tok = true)) \/
  (lit = [] /\ tok <> IDENT /\ exists name, kw !! name = Some tok) \/
  In tok contentKinds.
Proof.
  destruct s as [input c]. unfold Scan, unconsumed. rewrite read_at. simpl.
  set (ch0 := hd eof (drop c input)). set (s0 := mkReader input (S c)).
  destruct (isWhitespace ch0).
  { intros H. apply scanWhitespace_kind in H. subst. do 3 right.
    unfold contentKinds. simpl. auto. }
  destruct (isLetter ch0 || (ch0 =? rn "_")).
  { intros H. apply scanIdent_kind in H as [[-> | [-> | ->]] | H];
      [do 3 right; unfold contentKinds; simpl; auto 10 ..|]. auto. }
  destruct (isDigit ch0).
  { intros H. apply scanNumber_kind in H as [[-> [-> | ->]] | [-> | [-> | ->]]];
      [right; left; auto | right; left; auto
      | do 3 right; unfold contentKinds; simpl; auto 10 ..]. }
  unfold Scan_switch.
  destruct (ch0 =? eof) eqn:Heof.
  { intros [= <- _ <- <-]. left. apply Z.eqb_eq in Heof. auto. }
  destruct (ch0 =? dquote).
  { intros H. apply scanIdent_kind in H as [[-> | [-> | ->]] | H];
      [do 3 right; unfold contentKinds; simpl; auto 10 ..|]. auto. }
  destruct (ch0 =? squote).
  { intros H. apply scanString_kind in H as [-> | [-> | ->]];
      do 3 right; unfold contentKinds; simpl; auto 10. }
  assert (Hnum : forall s1, scanNumber s1 = Some (tok, pos, lit, s') ->
    (lit = [] /\ (isPunctuation tok = true \/ isOperator tok = true)) \/
    (lit = [] /\ tok <> IDENT /\ exists name, kw !! name = Some tok) \/
    In tok contentKinds).
  { intros s1 H.
    apply scanNumber_kind in H as [[-> [-> | ->]] | [-> | [-> | ->]]];
      [left; auto | left; auto
      | do 2 right; unfold contentKinds; simpl; auto 10 ..]. }
  destruct (read s0) as [[ch1 p1] s1].
  destruct (ch0 =? rn ".").
  { destruct (isDigit ch1).
    - intros H. right. eapply Hnum. exact H.
    - intros [= <- _ <- _]. right. left. auto. }
  destruct ((ch0 =? rn "+") || (ch0 =? rn "-")).
  { intros H. right. eapply Hnum. exact H. }
  repeat match goal with
  | |- (if ?b then _ else _) = _ -> _ =>
    destruct b;
    [ try (intros [= <- _ <- _]; right; left; split;
           [reflexivity | (left; reflexivity) || (right; reflexivity)]) | ]
  end.
  all: intros [= <- _ <- _];
    first [ solve [right; left; split;
                   [reflexivity | (left; reflexivity) || (right; reflexivity)]]
          | solve [do 3 right; unfold contentKinds; simpl; auto 10] ].
Qed.

Ltac kinds_lia :=
  unfold isContentKind, isPunctuation, isOperator, contentKinds,
    ILLEGAL, EOF, WS, IDENT, STRING, BADSTRING, BADESCAPE, TRUE, FALSE, AND, OR,
    startLiterals, endLiterals, startOperators, endOperators in *;
  simpl In in *; lia.


(** ** The end of the input *)

Lemma Scan_at_end (kw : gmap (list Z) Z) (s : reader) :
  unconsumed s = [] ->
  Scan kw s
  = Some (EOF, posAt (src s) (cur s), [], mkReader (src s) (S (cur s))) /\
  unconsumed (mkReader (src s) (S (cur s))) = [].
Proof.
  destruct s as [input c]. unfold unconsumed. simpl. intros Hdrop. split.
  - unfold Scan. rewrite read_at, Hdrop. reflexivity.
  - rewrite drop_S_tl, Hdrop. reflexivity.
Qed.

(** On an input without the rune zero, and with kinds as in the
    registration contract, EOF is only returned at the end of the input. *)
Lemma Scan_EOF_exhausted (kw : gmap (list Z) Z) (s : reader) (pos : Pos)
  (lit : gostring) (s' : reader) :
  ~ In eof (src s) ->
  isContentKind NUMBER ->
  isContentKind DURATION_VAL ->
  keywords_ok kw ->
  Scan kw s = Some (EOF, pos, lit, s') ->
  lit = [] /\ unconsumed s' = [].
Proof.
  intros Hnul HN HD Hkw Hscan.
  apply Scan_shape in Hscan
    as [(_ & -> & Hhd & ->) | [(_ & [H | H]) | [(_ & _ & name & H) | Hin]]].
  - split; [reflexivity|]. destruct s as [input c]. unfold unconsumed in *.
    simpl in *. rewrite drop_S_tl.
    destruct (drop c input) as [|x t] eqn:Hdrop; [reflexivity|].
    simpl in Hhd. subst x. exfalso. apply Hnul.
    rewrite <- (take_drop c input). apply in_or_app. right.
    rewrite Hdrop. left. reflexivity.
  - discriminate H.
  - discriminate H.
  - apply Hkw in H. exfalso. clear -H. kinds_lia.
  - exfalso. clear -Hin HN HD. kinds_lia.
Qed.


(** ** LoadTokenMap *)

Lemma fold_insert_swap {K V E : Type} `{Countable K} (f : E -> K) (g : E -> V)
  (l : list E) :
  forall (m : gmap K V) (k : K) (v : V),
    (forall e, In e l -> f e <> k) ->
    fold_left (fun m e => <[f e := g e]> m) l (<[k := v]> m)
    = <[k := v]> (fold_left (fun m e => <[f e := g e]> m) l m).
Proof.
  induction l as [|e l IH]; intros m k v Hk; [reflexivity|]. simpl.
  rewrite (insert_insert_ne m (f e) k) by (apply Hk; left; reflexivity).
  apply IH. intros e' He'. apply Hk. right. exact He'.
Qed.

Lemma fold_insert_comm {K V E : Type} `{Countable K} (f : E -> K) (g : E -> V)
  (l1 l2 : list E) :
  forall m : gmap K V,
    (forall e1 e2, In e1 l1 -> In e2 l2 -> f e1 <> f e2) ->
    fold_left (fun m e => <[f e := g e]> m) l2
      (fold_left (fun m e => <[f e := g e]> m) l1 m)
    = fold_left (fun m e => <[f e := g e]> m) l1
        (fold_left (fun m e => <[f e := g e]> m) l2 m).
Proof.
  induction l1 as [|e l1 IH]; intros m Hd; [reflexivity|]. simpl.
  rewrite IH by (intros e1 e2 H1 H2; apply Hd; [right|]; assumption).
  f_equal. apply fold_insert_swap.
  intros e2 H2. apply not_eq_sym, Hd; [left; reflexivity | exact H2].
Qed.

(** C9, as the code has it: two registrations whose kinds are disjoint and
    whose display strings are distinct after lower-casing give the same
    tables in either order; after registering [{A: x}] and another such
    map, looking [x] up gives [A], and scanning the word [x] gives the
    kind [A]. *)
Theorem LoadTokenMap_order_independent (m1 m2 : list (Token * gostring))
  (t : Tables) :
  (forall e1 e2, In e1 m1 -> In e2 m2 ->
     e1.1 <> e2.1 /\ ToLower e1.2 <> ToLower e2.2) ->
  LoadTokenMap ToLower m2 (LoadTokenMap ToLower m1 t)
  = LoadTokenMap ToLower m1 (LoadTokenMap ToLower m2 t) /\
  (forall (A : Token) (x : gostring),
     m1 = [(A, x)] ->
     Lookup (keywords (LoadTokenMap ToLower m2 (LoadTokenMap ToLower m1 t))) x = A /\
     Lookup (keywords (LoadTokenMap ToLower m1 (LoadTokenMap ToLower m2 t))) x = A /\
     forall (s : reader) (rest : list rune),
       A <> IDENT ->
       x <> [] ->
       forallb isWordChar x = true ->
       identEnd rest ->
       unconsumed s = x ++ rest ->
       exists s',
         Scan (keywords (LoadTokenMap ToLower m2 (LoadTokenMap ToLower m1 t))) s
         = Some (A, posAt (src s) (cur s), [], s') /\
         Scan (keywords (LoadTokenMap ToLower m1 (LoadTokenMap ToLower m2 t))) s
         = Some (A, posAt (src s) (cur s), [], s')).
Proof.
  intros Hd.
  assert (Heq : LoadTokenMap ToLower m2 (LoadTokenMap ToLower m1 t)
                = LoadTokenMap ToLower m1 (LoadTokenMap ToLower m2 t)).
  { unfold LoadTokenMap. simpl. f_equal.
    - apply (fold_insert_comm (fun kv : Token * gostring => kv.1)
               (fun kv => kv.2)).
      intros e1 e2 H1 H2. apply (Hd e1 e2 H1 H2).
    - apply (fold_insert_comm (fun kv : Token * gostring => ToLower kv.2)
               (fun kv => kv.1)).
      intros e1 e2 H1 H2. apply (Hd e1 e2 H1 H2). }
  split; [exact Heq|]. intros A x ->. rewrite Heq.
  assert (Hlook : Lookup (keywords (LoadTokenMap ToLower [(A, x)]
                                      (LoadTokenMap ToLower m2 t))) x = A).
  { unfold Lookup, LoadTokenMap. simpl. rewrite lookup_insert_eq. reflexivity. }
  split; [exact Hlook|]. split; [exact Hlook|].
  intros s rest HA Hne Hx Hend Hun. destruct s as [input c].
  unfold unconsumed in Hun. simpl in Hun.
  destruct (Scan_word
              (keywords (LoadTokenMap ToLower [(A, x)] (LoadTokenMap ToLower m2 t)))
              input c x rest Hne Hx Hend Hun) as (s' & _ & Hscan).
  exists s'. rewrite Hscan, Hlook. simpl src. simpl cur.
  apply Z.eqb_neq in HA. rewrite HA. simpl. auto.
Qed.

(** ** [Scan] always returns *)

Lemma scanWhitespace_total (s : reader) :
  exists r, scanWhitespace s = Some r.
Proof.
  unfold scanWhitespace. destruct (curr s) as [ch pos].
  destruct s as [input c].
  destruct (span_exists isWhitespace (drop c input) eq_refl)
    as (ws & rest & Hdrop & Hws & Hrest).
  rewrite (scanWhitespace_loop_run ws rest input c) by
    (try assumption; rewrite (fuel_at _ _ _ Hdrop), length_app; lia).
  cbn [mbind option_bind]. eauto.
Qed.

Lemma ScanBareIdent_total (input : list rune) (c : nat) :
  isIdentChar (hd eof (drop c input)) = true ->
  exists id c', ScanBareIdent (mkReader input c) = Some (id, mkReader input c') /\
                (c < c')%nat.
Proof.
  intros Hfirst.
  destruct (span_exists isIdentChar (drop c input) eq_refl)
    as (id & rest & Hdrop & Hid & Hrest).
  unfold ScanBareIdent.
  rewrite (ScanBareIdent_loop_run id rest input c) by
    (try assumption; rewrite (fuel_at _ _ _ Hdrop), length_app; lia).
  do 2 eexists. split; [reflexivity|].
  destruct id as [|x id].
  - simpl in Hdrop. rewrite Hdrop in Hfirst. congruence.
  - simpl length. destruct (hd eof rest =? eof); lia.
Qed.

Lemma scanIdent_loop_total (input : list rune) (pos : Pos) :
  forall (k c : nat) (buf : gostring),
    (length input - c < k)%nat ->
    exists r, scanIdent_loop k pos (mkReader input c) buf = Some r.
Proof.
  induction k as [|k IH]; intros c buf Hk; [lia|].
  cbn [scanIdent_loop]. rewrite read_at.
  destruct (hd eof (drop c input) =? eof) eqn:He; [eauto|].
  apply Z.eqb_neq, hd_drop_not_eof in He.
  destruct (hd eof (drop c input) =? dquote).
  - destruct (scanString_total (mkReader input (S c)))
      as (tok0 & pos0 & lit0 & s' & ->).
    cbn [mbind option_bind].
    destruct ((tok0 =? BADSTRING) || (tok0 =? BADESCAPE)); eauto.
  - destruct (isIdentChar (hd eof (drop c input))) eqn:Hid; [|eauto].
    rewrite unread_at.
    destruct (ScanBareIdent_total input c Hid) as (id & c' & -> & Hc').
    cbn [mbind option_bind]. apply IH. lia.
Qed.

Lemma scanIdent_total (kw : gmap (list Z) Z) (input : list rune) (c : nat) :
  exists r, scanIdent kw (mkReader input c) = Some r.
Proof.
  unfold scanIdent. rewrite read_at, unread_at.
  destruct (scanIdent_loop_total input (posAt input c) (fuel (mkReader input c))
              c []) as [r ->]; [unfold fuel; simpl; lia|].
  cbn [mbind option_bind]. destruct r as [res | [lit s']]; [eauto|].
  destruct (negb (Lookup kw lit =? IDENT)); eauto.
Qed.

Lemma scanNumber_total (s : reader) : exists r, scanNumber s = Some r.
Proof.
  assert (Hdig : forall p buf s0, exists r, scanNumber_digits p buf s0 = Some r).
  { intros p buf s0.
    destruct (scanNumber_digits_shape p buf s0) as (t & l & s1 & -> & _). eauto. }
  unfold scanNumber. destruct (curr s) as [ch p].
  destruct ((ch =? rn "+") || (ch =? rn "-")).
  - destruct (read s) as [[ch1 p1] s1]. destruct (read s1) as [[ch2 p2] s2].
    destruct (isDigit ch1 || (ch1 =? rn ".") && isDigit ch2); [apply Hdig|].
    destruct (ch =? rn "+"); [eauto|]. destruct (ch =? rn "-"); [eauto|].
    apply Hdig.
  - destruct (ch =? rn ".").
    + destruct (read s) as [[ch1 p1] s1].
      destruct (negb (isDigit ch1)); [eauto | apply Hdig].
    + apply Hdig.
Qed.

(** Every call of [Scan] returns a token: no loop of the scanner outruns
    the input. *)
Theorem Scan_total (kw : gmap (list Z) Z) (s : reader) :
  exists res s', Scan kw s = Some (res, s').
Proof.
  assert (Hpair : forall o : option (result * reader),
            (exists r, o = Some r) -> exists res s', o = Some (res, s'))
    by (intros o [[res s'] ->]; eauto).
  apply Hpair. destruct s as [input c]. unfold Scan. rewrite read_at.
  set (ch0 := hd eof (drop c input)). set (s0 := mkReader input (S c)).
  destruct (isWhitespace ch0); [apply scanWhitespace_total|].
  destruct (isLetter ch0 || (ch0 =? rn "_")); [apply scanIdent_total|].
  destruct (isDigit ch0); [apply scanNumber_total|].
  unfold Scan_switch.
  destruct (ch0 =? eof); [eauto|].
  destruct (ch0 =? dquote); [apply scanIdent_total|].
  destruct (ch0 =? squote).
  { destruct (scanString_total s0) as (t & p & l & s1 & ->). eauto. }
  destruct (read s0) as [[ch1 p1] s1].
  destruct (ch0 =? rn ".").
  { destruct (isDigit ch1); [apply scanNumber_total | eauto]. }
  destruct ((ch0 =? rn "+") || (ch0 =? rn "-")); [apply scanNumber_total|].
  repeat match goal with
  | |- exists r, (if ?b then _ else _) = Some r => destruct b; [try (eauto; fail)|]
  end; eauto.
Qed.

(** ** What a scan consumes *)

Lemma hd_drop_cons (input : list rune) (c : nat) :
  hd eof (drop c input) <> eof ->
  drop c input = hd eof (drop c input) :: drop (S c) input.
Proof.
  intros H. rewrite drop_S_tl. destruct (drop c input); simpl in *; congruence.
Qed.

Lemma lexeme_at (input : list rune) (c : nat) (lit : gostring) :
  drop c input = lit ++ drop (c + length lit) input ->
  lexeme (mkReader input c) lit (mkReader input (c + length lit)).
Proof. intros H. unfold lexeme, unconsumed. simpl. auto. Qed.

Lemma scanDigits_exact (input : list rune) (c : nat) :
  exists ds,
    scanDigits (mkReader input c) = Some (ds, mkReader input (c + length ds)) /\
    drop c input = ds ++ drop (c + length ds) input /\
    forallb isDigit ds = true /\
    isDigit (hd eof (drop (c + length ds) input)) = false.
Proof.
  destruct (span_exists isDigit (drop c input) eq_refl)
    as (ds & rest & Hdrop & Hds & Hrest).
  exists ds. rewrite (scanDigits_run ds rest) by assumption.
  pose proof (drop_plus_app _ _ _ _ Hdrop) as Hr. unfold rune in *.
  rewrite Hr. auto.
Qed.

Lemma isDigit_not_eof (x : rune) : isDigit x = true -> x <> eof.
Proof. intros H. assert ((x =? eof) = false) by (clear -H; rune_solve).
  apply Z.eqb_neq. assumption. Qed.

(** The digits routine consumes exactly the runes it appends to its
    buffer, and appends at least one when a number starts there. *)
Lemma scanNumber_digits_exact (pos : Pos) (buf : gostring) (input : list rune)
  (c : nat) :
  exists tok lit,
    scanNumber_digits pos buf (mkReader input c)
    = Some (tok, pos, buf ++ lit, mkReader input (c + length lit)) /\
    (tok = NUMBER \/ tok = DURATION_VAL) /\
    drop c input = lit ++ drop (c + length lit) input /\
    (startsNumber (drop c input) = true -> lit <> []).
Proof.
  destruct (scanDigits_exact input c) as (ds & Hscan & Hdrop & Hds & Hend).
  unfold scanNumber_digits. rewrite Hscan. cbn [mbind option_bind].
  set (c1 := (c + length ds)%nat) in *.
  (* the suffix test, from any literal [lit1] read so far *)
  assert (Hsuffix : forall (lit1 : gostring),
    drop c input = lit1 ++ drop (c + length lit1) input ->
    exists tok lit,
      (if negb (containsDot (buf ++ lit1)) then
         let '(ch0, _, s0) := read (mkReader input (c + length lit1)) in
         if (ch0 =? rn "u") || (ch0 =? micro) || (ch0 =? rn "s")
            || (ch0 =? rn "h") || (ch0 =? rn "d") || (ch0 =? rn "w")
         then Some (DURATION_VAL, pos, (buf ++ lit1) ++ [ch0], s0)
         else if ch0 =? rn "m" then
           let '(ch1, _, s1) := read s0 in
           if ch1 =? rn "s"
           then Some (DURATION_VAL, pos, ((buf ++ lit1) ++ [ch0]) ++ [ch1], s1)
           else Some (DURATION_VAL, pos, (buf ++ lit1) ++ [ch0], unread s1)
         else Some (NUMBER, pos, buf ++ lit1, unread s0)
       else Some (NUMBER, pos, buf ++ lit1, mkReader input (c + length lit1)))
      = Some (tok, pos, buf ++ lit, mkReader input (c + length lit)) /\
      (tok = NUMBER \/ tok = DURATION_VAL) /\
      drop c input = lit ++ drop (c + length lit) input /\
      (lit1 <> [] -> lit <> [])).
  { intros lit1 H1. set (c2 := (c + length lit1)%nat) in *.
    destruct (negb (containsDot (buf ++ lit1))); [|exists NUMBER, lit1; auto].
    rewrite read_at. set (x := hd eof (drop c2 input)).
    assert (Hx : x <> eof -> drop c input = (lit1 ++ [x]) ++ drop (S c2) input).
    { intros Hne. rewrite <- app_assoc. simpl. rewrite H1 at 1. f_equal.
      apply hd_drop_cons. exact Hne. }
    assert (Hlen : forall y : rune, length (lit1 ++ [y]) = S (length lit1))
      by (intros y; rewrite length_app; simpl; lia).
    destruct ((x =? rn "u") || (x =? micro) || (x =? rn "s") || (x =? rn "h")
              || (x =? rn "d") || (x =? rn "w")) eqn:Hu.
    - exists DURATION_VAL, (lit1 ++ [x]).
      rewrite Hlen, <- app_assoc. replace (c + S (length lit1))%nat with (S c2) by (unfold c2; lia).
      split; [reflexivity|]. split; [auto|]. split.
      + apply Hx. intros Heof. rewrite Heof in Hu. discriminate Hu.
      + intros _ Heq. apply app_eq_nil in Heq as [_ Heq]. discriminate Heq.
    - destruct (x =? rn "m") eqn:Hm.
      + apply Z.eqb_eq in Hm.
        assert (Hne : x <> eof) by (rewrite Hm; intros H; discriminate H).
        rewrite read_at. set (y := hd eof (drop (S c2) input)).
        destruct (y =? rn "s") eqn:Hs.
        * apply Z.eqb_eq in Hs.
          exists DURATION_VAL, ((lit1 ++ [x]) ++ [y]).
          rewrite length_app, Hlen. simpl length.
          replace (c + (S (length lit1) + 1))%nat with (S (S c2)) by (unfold c2; lia).
          rewrite <- !app_assoc. split; [reflexivity|]. split; [auto|]. split.
          -- rewrite (Hx Hne), <- !app_assoc. simpl. do 2 f_equal.
             change (y :: drop (S (S c2)) input)
               with ([y] ++ drop (S (S c2)) input).
             simpl. unfold y. apply hd_drop_cons. fold y. rewrite Hs.
             intros H; discriminate H.
          -- intros _ Heq. apply app_eq_nil in Heq as [_ Heq]. discriminate Heq.
        * exists DURATION_VAL, (lit1 ++ [x]).
          rewrite Hlen, <- app_assoc, unread_at.
          replace (c + S (length lit1))%nat with (S c2) by (unfold c2; lia).
          split; [reflexivity|]. split; [auto|]. split; [exact (Hx Hne)|].
          intros _ Heq. apply app_eq_nil in Heq as [_ Heq]. discriminate Heq.
      + exists NUMBER, lit1. rewrite unread_at. auto. }
  rewrite read_at. set (x0 := hd eof (drop c1 input)).
  destruct (x0 =? rn ".") eqn:Hdot.
  - apply Z.eqb_eq in Hdot.
    assert (Hne0 : x0 <> eof) by (rewrite Hdot; intros H; discriminate H).
    rewrite read_at. set (x1 := hd eof (drop (S c1) input)).
    destruct (isDigit x1) eqn:Hd1.
    + destruct (scanDigits_exact input (S (S c1)))
        as (fs & Hscan2 & Hdrop2 & Hfs & Hend2).
      rewrite Hscan2. cbn [mbind option_bind].
      assert (Hc : (c + length (ds ++ [x0] ++ [x1] ++ fs)
                    = S (S c1) + length fs)%nat)
        by (unfold rune in *; rewrite !length_app; simpl; unfold c1; lia).
      assert (Hlit : drop c input
                     = (ds ++ [x0] ++ [x1] ++ fs)
                       ++ drop (c + length (ds ++ [x0] ++ [x1] ++ fs)) input).
      { rewrite Hc, <- !app_assoc. rewrite Hdrop at 1. f_equal. fold c1.
        rewrite (hd_drop_cons input c1) by exact Hne0. fold x0. simpl. f_equal.
        rewrite (hd_drop_cons input (S c1))
          by (apply isDigit_not_eof; exact Hd1).
        fold x1. f_equal. exact Hdrop2. }
      destruct (Hsuffix (ds ++ [x0] ++ [x1] ++ fs) Hlit)
        as (tok & lit & Heq & Htok & Hpre & Hnonempty).
      exists tok, lit.
      rewrite Hc in Heq.
      rewrite <- (app_assoc buf ds ([x0] ++ [x1] ++ fs)).
      split; [exact Heq|]. split; [exact Htok|]. split; [exact Hpre|].
      intros _. apply Hnonempty. intros H. apply app_eq_nil in H as [_ H].
      discriminate H.
    + rewrite !unread_at. cbn [mbind option_bind].
      destruct (Hsuffix ds Hdrop) as (tok & lit & Heq & Htok & Hpre & Hnonempty).
      exists tok, lit. split; [exact Heq|]. split; [exact Htok|].
      split; [exact Hpre|]. intros Hstart. apply Hnonempty. intros ->.
      unfold startsNumber in Hstart. unfold x1, c1 in Hd1. unfold c1 in Hend.
      simpl length in *. rewrite Nat.add_0_r in *.
      rewrite drop_S_tl in Hd1.
      rewrite Hend, Hd1, andb_false_r in Hstart. discriminate Hstart.
  - rewrite unread_at. cbn [mbind option_bind].
    destruct (Hsuffix ds Hdrop) as (tok & lit & Heq & Htok & Hpre & Hnonempty).
    exists tok, lit. split; [exact Heq|]. split; [exact Htok|].
    split; [exact Hpre|]. intros Hstart. apply Hnonempty. intros ->.
    unfold startsNumber in Hstart. unfold x0, c1 in Hdot. unfold c1 in Hend.
    simpl length in *. rewrite Nat.add_0_r in *.
    rewrite Hend, Hdot in Hstart. discriminate Hstart.
Qed.

(** ** Every scan moves on *)

Lemma moved_at (input : list rune) (c k c' : nat) :
  (c + k <= c')%nat -> moved input c k (mkReader input c').
Proof. intros H. split; [reflexivity | exact H]. Qed.

Lemma moved_weaken (input : list rune) (c k c0 k0 : nat) (s' : reader) :
  moved input c k s' -> (c0 + k0 <= c + k)%nat -> moved input c0 k0 s'.
Proof. intros [Hs Hc] H. split; [exact Hs | lia]. Qed.

Lemma scanWhitespace_moved (input : list rune) (c : nat) (res : result)
  (s' : reader) :
  scanWhitespace (mkReader input c) = Some (res, s') -> moved input c 0 s'.
Proof.
  unfold scanWhitespace. destruct (curr (mkReader input c)) as [ch pos].
  destruct (span_exists isWhitespace (drop c input) eq_refl)
    as (ws & rest & Hdrop & Hws & Hrest).
  rewrite (scanWhitespace_loop_run ws rest input c) by
    (try assumption; rewrite (fuel_at _ _ _ Hdrop), length_app; lia).
  cbn [mbind option_bind]. intros [= _ <-].
  apply moved_at. destruct (hd eof rest =? eof); lia.
Qed.

Lemma ScanString_loop_moved (ending : rune) (input : list rune) :
  forall (k c : nat) (buf lit : gostring) (err : error) (s' : reader),
    ScanString_loop k ending (mkReader input c) buf = Some (lit, err, s') ->
    moved input c 1 s'.
Proof.
  induction k as [|k IH]; intros c buf lit err s'; [discriminate|].
  cbn [ScanString_loop]. rewrite ReadRune_at.
  destruct (hd eof (drop c input) =? ending);
    [intros [= _ _ <-]; apply moved_at; lia|].
  destruct (hd eof (drop c input) =? eof);
    [intros [= _ _ <-]; apply moved_at; lia|].
  destruct (hd eof (drop c input) =? backslash).
  - rewrite ReadRune_at.
    destruct ((hd eof (drop (S c) input) =? dquote)
              || (hd eof (drop (S c) input) =? squote)).
    + intros H. apply IH in H. eapply moved_weaken; [exact H | lia].
    + intros [= _ _ <-]. apply moved_at. lia.
  - intros H. apply IH in H. eapply moved_weaken; [exact H | lia].
Qed.

Lemma scanString_moved (input : list rune) (c : nat) (res : result)
  (s' : reader) :
  scanString (mkReader input (S c)) = Some (res, s') -> moved input c 1 s'.
Proof.
  unfold scanString. rewrite unread_at.
  destruct (curr (mkReader input c)) as [ch pos].
  unfold ScanString. rewrite ReadRune_at.
  assert (Hdone : forall (lit : gostring) (err : error) (s1 : reader),
    moved input c 1 s1 ->
    match err with
    | noError => Some (STRING, pos, lit, s1)
    | errBadString => Some (BADSTRING, pos, lit, s1)
    | errBadEscape => let '(_, pos0) := curr s1 in Some (BADESCAPE, pos0, lit, s1)
    end = Some (res, s') -> moved input c 1 s').
  { intros lit err s1 Hm. destruct err; [| |destruct (curr s1)];
      intros [= _ <-]; exact Hm. }
  destruct (hd eof (drop c input) =? eof).
  - cbn [mbind option_bind].
    apply (Hdone [] errBadString (mkReader input (S c))). apply moved_at. lia.
  - destruct (ScanString_loop _ _ _ _) as [[[lit err] s1]|] eqn:Hloop;
      [|discriminate].
    cbn [mbind option_bind]. apply (Hdone lit err s1).
    apply ScanString_loop_moved in Hloop.
    eapply moved_weaken; [exact Hloop | lia].
Qed.

Lemma ScanBareIdent_moved (input : list rune) (c : nat) (id : gostring)
  (s' : reader) :
  ScanBareIdent (mkReader input c) = Some (id, s') ->
  moved input c (if isIdentChar (hd eof (drop c input)) then 1 else 0) s'.
Proof.
  destruct (span_exists isIdentChar (drop c input) eq_refl)
    as (run & rest & Hdrop & Hrun & Hrest).
  unfold ScanBareIdent.
  rewrite (ScanBareIdent_loop_run run rest input c) by
    (try assumption; rewrite (fuel_at _ _ _ Hdrop), length_app; lia).
  intros [= _ <-]. apply moved_at. rewrite Hdrop.
  destruct run as [|x run]; simpl.
  - rewrite Hrest. destruct (hd eof rest =? eof); lia.
  - destruct (isIdentChar x); destruct (hd eof rest =? eof); lia.
Qed.

Lemma scanIdent_loop_moved (input : list rune) (pos : Pos) :
  forall (k c : nat) (buf : gostring) r,
    scanIdent_loop k pos (mkReader input c) buf = Some r ->
    moved input c
      (if isIdentChar (hd eof (drop c input))
          || (hd eof (drop c input) =? dquote)
          || (hd eof (drop c input) =? eof) then 1 else 0)
      (loop_reader r).
Proof.
  induction k as [|k IH]; intros c buf r; [discriminate|].
  cbn [scanIdent_loop]. rewrite read_at.
  set (x := hd eof (drop c input)).
  destruct (x =? eof) eqn:He.
  { intros [= <-]. simpl. apply moved_at. rewrite orb_true_r. lia. }
  destruct (x =? dquote) eqn:Hq.
  { destruct (scanString (mkReader input (S c)))
      as [[[[tok0 pos0] lit0] s1]|] eqn:Hs; [|discriminate].
    cbn [mbind option_bind]. apply scanString_moved in Hs.
    rewrite orb_true_r. simpl.
    destruct ((tok0 =? BADSTRING) || (tok0 =? BADESCAPE));
      intros [= <-]; exact Hs. }
  rewrite !orb_false_r.
  destruct (isIdentChar x) eqn:Hid.
  - rewrite unread_at.
    destruct (ScanBareIdent (mkReader input c)) as [[id s1]|] eqn:Hb;
      [|discriminate].
    cbn [mbind option_bind]. apply ScanBareIdent_moved in Hb.
    fold x in Hb. rewrite Hid in Hb. destruct s1 as [input1 c1].
    destruct Hb as [Hsrc Hcur]. simpl in Hsrc, Hcur. subst input1.
    intros H. apply IH in H. eapply moved_weaken; [exact H|].
    destruct (_ || _); lia.
  - intros [= <-]. simpl. rewrite unread_at. apply moved_at. lia.
Qed.

Lemma scanIdent_moved (kw : gmap (list Z) Z) (input : list rune) (c : nat)
  (res : result) (s' : reader) :
  isIdentChar (hd eof (drop c input)) = true
  \/ hd eof (drop c input) = dquote ->
  scanIdent kw (mkReader input c) = Some (res, s') -> moved input c 1 s'.
Proof.
  intros Hfirst. unfold scanIdent. rewrite read_at, unread_at.
  destruct (scanIdent_loop _ _ _ _) as [r|] eqn:Hloop; [|discriminate].
  cbn [mbind option_bind]. apply scanIdent_loop_moved in Hloop.
  assert (Hone : isIdentChar (hd eof (drop c input))
                 || (hd eof (drop c input) =? dquote)
                 || (hd eof (drop c input) =? eof) = true).
  { destruct Hfirst as [-> | ->]; [reflexivity|].
    change (dquote =? dquote) with true. rewrite orb_true_r. reflexivity. }
  rewrite Hone in Hloop.
  destruct r as [[res0 s0] | [lit s0]]; simpl in Hloop.
  - intros [= _ <-]. exact Hloop.
  - destruct (negb (Lookup kw lit =? IDENT)); intros [= _ <-]; exact Hloop.
Qed.

Lemma scanNumber_digits_moved (pos : Pos) (buf : gostring) (input : list rune)
  (c : nat) (res : result) (s' : reader) :
  scanNumber_digits pos buf (mkReader input c) = Some (res, s') ->
  moved input c (if startsNumber (drop c input) then 1 else 0) s'.
Proof.
  destruct (scanNumber_digits_exact pos buf input c)
    as (tok & lit & -> & _ & _ & Hne).
  intros [= _ <-]. apply moved_at.
  destruct (startsNumber (drop c input)); [|lia].
  destruct lit; [exfalso; apply Hne; reflexivity | simpl; lia].
Qed.

Lemma scanNumber_moved (input : list rune) (c : nat) (res : result)
  (s' : reader) :
  isDigit (hd eof (drop c input)) = true
  \/ hd eof (drop c input) = rn "+" \/ hd eof (drop c input) = rn "-"
  \/ (hd eof (drop c input) = rn "."
      /\ isDigit (hd eof (drop (S c) input)) = true) ->
  scanNumber (mkReader input (S c)) = Some (res, s') -> moved input c 1 s'.
Proof.
  intros Hfirst. unfold scanNumber. rewrite curr_at.
  set (x := hd eof (drop c input)) in *.
  destruct ((x =? rn "+") || (x =? rn "-")) eqn:Hsign.
  - rewrite !read_at, !unread_at.
    assert (Hdig : forall b, scanNumber_digits (posAt input c) b
                               (mkReader input (S c)) = Some (res, s') ->
                             moved input c 1 s').
    { intros b H. apply scanNumber_digits_moved in H.
      eapply moved_weaken; [exact H | lia]. }
    destruct (isDigit (hd eof (drop (S c) input)) || _); [apply Hdig|].
    destruct (x =? rn "+"); [intros [= _ <-]; apply moved_at; lia|].
    destruct (x =? rn "-"); [intros [= _ <-]; apply moved_at; lia|].
    apply Hdig.
  - apply orb_false_elim in Hsign as [Hp Hm].
    apply Z.eqb_neq in Hp, Hm.
    destruct (x =? rn ".") eqn:Hdot.
    + rewrite read_at, !unread_at.
      destruct (negb (isDigit (hd eof (drop (S c) input)))) eqn:Hd;
        [intros [= _ <-]; apply moved_at; lia|].
      apply negb_false_iff in Hd. intros H.
      apply scanNumber_digits_moved in H.
      unfold startsNumber in H. fold x in H. rewrite Hdot in H.
      rewrite drop_S_tl in Hd. rewrite Hd, orb_true_r in H. exact H.
    + apply Z.eqb_neq in Hdot. rewrite unread_at. intros H.
      apply scanNumber_digits_moved in H.
      destruct Hfirst as [Hd | [? | [? | [? _]]]]; try congruence.
      unfold startsNumber in H. fold x in H. rewrite Hd in H. exact H.
Qed.

(** A call of [Scan] moves the reader on by a rune at least. *)
Lemma Scan_moved (kw : gmap (list Z) Z) (input : list rune) (c : nat)
  (res : result) (s' : reader) :
  Scan kw (mkReader input c) = Some (res, s') -> moved input c 1 s'.
Proof.
  unfold Scan. rewrite read_at. set (x := hd eof (drop c input)).
  destruct (isWhitespace x).
  { intros H. apply scanWhitespace_moved in H.
    eapply moved_weaken; [exact H | lia]. }
  destruct (isLetter x || (x =? rn "_")) eqn:Hw.
  { rewrite unread_at. apply scanIdent_moved. left. fold x.
    unfold isIdentChar. apply orb_prop in Hw as [-> | ->];
      [reflexivity | apply orb_true_r]. }
  destruct (isDigit x) eqn:Hd.
  { apply scanNumber_moved. left. exact Hd. }
  unfold Scan_switch.
  destruct (x =? eof); [intros [= _ <-]; apply moved_at; lia|].
  destruct (x =? dquote) eqn:Hq.
  { rewrite unread_at. apply scanIdent_moved. right. apply Z.eqb_eq. exact Hq. }
  destruct (x =? squote); [apply scanString_moved|].
  rewrite read_at, unread_at.
  destruct (x =? rn ".") eqn:Hdot.
  { destruct (isDigit (hd eof (drop (S c) input))) eqn:Hd1.
    - apply scanNumber_moved. right. right. right.
      split; [apply Z.eqb_eq; exact Hdot | exact Hd1].
    - intros [= _ <-]. apply moved_at. lia. }
  destruct ((x =? rn "+") || (x =? rn "-")) eqn:Hs.
  { apply scanNumber_moved. apply orb_prop in Hs as [Hs | Hs];
      apply Z.eqb_eq in Hs; auto. }
  repeat match goal with
  | |- (if ?b then _ else _) = _ -> _ => destruct b
  end;
  intros [= _ <-]; apply moved_at; lia.
Qed.

(** X1: [Scan] never changes the input it reads, and every call consumes at
    least one rune (the end-of-stream sentinel counted as one). *)
Theorem Scan_progress (kw : gmap (list Z) Z) (s : reader) (res : result)
  (s' : reader) :
  Scan kw s = Some (res, s') -> src s' = src s /\ (cur s < cur s')%nat.
Proof.
  destruct s as [input c]. simpl. intros H.
  apply Scan_moved in H as [Hsrc Hcur]. split; [exact Hsrc | lia].
Qed.

(** X2: Scanning ends: on an input of [n] runes the call of [Scan] that
    follows [n] earlier calls, and every call after it, returns EOF with
    the empty literal. *)
Theorem Scan_reaches_EOF (kw : gmap (list Z) Z) (input : list rune) (k : nat) :
  (length input <= k)%nat ->
  exists pos s',
    Scan_nth NUMBER DURATION_VAL ToLower kw k (NewScanner input)
    = Some (EOF, pos, [], s').
Proof.
  unfold NewScanner.
  assert (Hgen : forall (k : nat) (s : reader),
    (length (src s) <= cur s + k)%nat ->
    exists pos s', Scan_nth NUMBER DURATION_VAL ToLower kw k s
                   = Some (EOF, pos, [], s')).
  { clear k. induction k as [|k IH]; intros s Hk.
    - simpl. destruct (Scan_at_end kw s) as [-> _]; [|eauto].
      unfold unconsumed. apply drop_ge. lia.
    - cbn [Scan_nth]. destruct (Scan_total kw s) as (res & s1 & Hs).
      rewrite Hs. cbn [mbind option_bind]. apply IH.
      destruct s as [inp c]. apply Scan_moved in Hs as [Hsrc Hcur].
      simpl in *. rewrite Hsrc. lia. }
  intros Hk. apply Hgen. simpl. lia.
Qed.

(** X3: A numeric literal is the text it was scanned from: when a digit, or a
    full stop and a digit, comes next, [Scan] returns a NUMBER or a
    DURATION whose literal is not empty and is exactly the runes it
    consumed. *)
Theorem Scan_number_lexeme (kw : gmap (list Z) Z) (s : reader) :
  startsNumber (unconsumed s) = true ->
  exists tok lit s',
    Scan kw s = Some (tok, posAt (src s) (cur s), lit, s') /\
    (tok = NUMBER \/ tok = DURATION_VAL) /\
    lit <> [] /\ lexeme s lit s'.
Proof.
  destruct s as [input c]. unfold unconsumed. simpl. intros Hstart.
  assert (Hentry : Scan kw (mkReader input c)
                   = scanNumber_digits (posAt input c) [] (mkReader input c)).
  { unfold startsNumber in Hstart.
    destruct (isDigit (hd eof (drop c input))) eqn:Hd;
      [apply Scan_digit; exact Hd|].
    simpl in Hstart. apply andb_prop in Hstart as [Hdot Hd1].
    apply Z.eqb_eq in Hdot.
    apply (Scan_dot_digit kw input c (drop (S c) input)).
    - rewrite <- Hdot. apply hd_drop_cons. rewrite Hdot.
      intros H; discriminate H.
    - rewrite drop_S_tl. exact Hd1. }
  destruct (scanNumber_digits_exact (posAt input c) [] input c)
    as (tok & lit & Heq & Htok & Hpre & Hne).
  exists tok, lit, (mkReader input (c + length lit)).
  rewrite Hentry, Heq. simpl.
  split; [reflexivity|]. split; [exact Htok|]. split; [exact (Hne Hstart)|].
  apply lexeme_at. exact Hpre.
Qed.

(** ** Positions *)

Lemma scanIdent_loop_pos (k : nat) :
  forall (p : Pos) (s : reader) (buf : gostring) (tok : Token) (pos : Pos)
    (lit : gostring) (s' : reader),
    scanIdent_loop k p s buf = Some (inl (tok, pos, lit, s')) ->
    pos = p \/ tok = BADSTRING \/ tok = BADESCAPE.
Proof.
  induction k as [|k IH]; intros p s buf tok pos lit s'; [discriminate|].
  cbn [scanIdent_loop]. destruct (read s) as [[ch p0] s0].
  destruct (ch =? eof); [discriminate|].
  destruct (ch =? dquote).
  - destruct (scanString s0) as [[[[tok0 pos0] lit0] s1]|]; [|discriminate].
    cbn [mbind option_bind].
    destruct ((tok0 =? BADSTRING) || (tok0 =? BADESCAPE)) eqn:Hbad.
    + intros [= <- _ _ _]. apply orb_prop in Hbad as [H | H];
        apply Z.eqb_eq in H; auto.
    + intros [= _ <- _ _]. auto.
  - destruct (isIdentChar ch); [|discriminate].
    destruct (ScanBareIdent (unread s0)) as [[id s1]|]; [|discriminate].
    cbn [mbind option_bind]. apply IH.
Qed.

Lemma scanIdent_pos (kw : gmap (list Z) Z) (input : list rune) (c : nat)
  (tok : Token) (pos : Pos) (lit : gostring) (s' : reader) :
  scanIdent kw (mkReader input c) = Some (tok, pos, lit, s') ->
  pos = posAt input c \/ tok = BADSTRING \/ tok = BADESCAPE.
Proof.
  unfold scanIdent. rewrite read_at, unread_at.
  destruct (scanIdent_loop _ _ _ _) as [[[[[tok0 pos0] lit0] s1] | [l s1]]|]
    eqn:Hloop; [| |discriminate]; cbn [mbind option_bind].
  - intros [= <- <- _ _]. eapply scanIdent_loop_pos. exact Hloop.
  - destruct (negb (Lookup kw l =? IDENT)); intros [= _ <- _ _]; auto.
Qed.

Lemma scanNumber_pos (input : list rune) (c : nat) (tok : Token) (pos : Pos)
  (lit : gostring) (s' : reader) :
  scanNumber (mkReader input (S c)) = Some (tok, pos, lit, s') ->
  pos = posAt input c.
Proof.
  assert (Hdig : forall p buf s0,
    scanNumber_digits p buf s0 = Some (tok, pos, lit, s') -> pos = p).
  { intros p buf s0 H.
    destruct (scanNumber_digits_shape p buf s0) as (t & l & s1 & Heq & _).
    rewrite Heq in H. injection H as _ <- _ _. reflexivity. }
  unfold scanNumber. rewrite curr_at.
  destruct (_ || _).
  - destruct (read _) as [[ch1 p1] s1]. destruct (read s1) as [[ch2 p2] s2].
    destruct (isDigit ch1 || _); [apply Hdig|].
    destruct (_ =? rn "+"); [intros [= _ <- _ _]; reflexivity|].
    destruct (_ =? rn "-"); [intros [= _ <- _ _]; reflexivity|].
    apply Hdig.
  - destruct (_ =? rn ".").
    + destruct (read _) as [[ch1 p1] s1].
      destruct (negb (isDigit ch1)); [intros [= _ <- _ _]; reflexivity|].
      apply Hdig.
    + apply Hdig.
Qed.

(** X4: The position of a token is the position of its first rune, except for
    the results of the string scan. *)
Theorem Scan_position (kw : gmap (list Z) Z) (s : reader) (tok : Token)
  (pos : Pos) (lit : gostring) (s' : reader) :
  Scan kw s = Some (tok, pos, lit, s') ->
  pos = posAt (src s) (cur s) \/
  tok = STRING \/ tok = BADSTRING \/ tok = BADESCAPE.
Proof.
  destruct s as [input c]. simpl. unfold Scan. rewrite read_at.
  set (x := hd eof (drop c input)).
  destruct (isWhitespace x).
  { unfold scanWhitespace. rewrite curr_at.
    destruct (scanWhitespace_loop _ _ _) as [[b s1]|]; [|discriminate].
    cbn [mbind option_bind]. intros [= _ <- _ _]. auto. }
  destruct (isLetter x || (x =? rn "_")).
  { rewrite unread_at. intros H. apply scanIdent_pos in H. tauto. }
  destruct (isDigit x).
  { intros H. apply scanNumber_pos in H. auto. }
  unfold Scan_switch.
  destruct (x =? eof); [intros [= _ <- _ _]; auto|].
  destruct (x =? dquote).
  { rewrite unread_at. intros H. apply scanIdent_pos in H. tauto. }
  destruct (x =? squote).
  { intros H. apply scanString_kind in H. tauto. }
  rewrite read_at, unread_at.
  destruct (x =? rn ".").
  { destruct (isDigit _); [intros H; apply scanNumber_pos in H; auto|].
    intros [= _ <- _ _]. auto. }
  destruct ((x =? rn "+") || (x =? rn "-")).
  { intros H. apply scanNumber_pos in H. auto. }
  repeat match goal with
  | |- (if ?b then _ else _) = _ -> _ => destruct b
  end;
  intros [= _ <- _ _]; auto.
Qed.

(** ** The switch of Scan *)

(** X5: The operators that start with [=], [!], [>] or [<]: the longer
    operator is taken when its second rune follows, and the rune after a
    one-rune operator stays unconsumed; a [!] alone is ILLEGAL. *)
Theorem Scan_comparison_operator (kw : gmap (list Z) Z) (s : reader)
  (c : rune) (rest : list rune) :
  In c [rn "="; rn "!"; rn ">"; rn "<"] ->
  unconsumed s = c :: rest ->
  Scan kw s
  = Some (match operatorOf c (hd eof rest) with
          | Some (tok, k) =>
            (tok, posAt (src s) (cur s), [], mkReader (src s) (cur s + k))
          | None =>
            (ILLEGAL, posAt (src s) (cur s), [c],
             mkReader (src s) (cur s + 1))
          end).
Proof.
  destruct s as [input n0]. unfold unconsumed. simpl. intros Hc Hdrop.
  unfold Scan. rewrite read_at, Hdrop. simpl hd.
  assert (Hnext : hd eof (drop (S n0) input) = hd eof rest)
    by (rewrite (drop_S_cons _ _ _ _ Hdrop); reflexivity).
  assert (H1 : (n0 + 1 = S n0)%nat) by lia.
  assert (H2 : (n0 + 2 = S (S n0))%nat) by lia.
  destruct Hc as [<- | [<- | [<- | [<- | []]]]]; known_tests;
    unfold Scan_switch, operatorOf; known_tests; rewrite read_at, Hnext;
    repeat match goal with
    | |- context [hd eof rest =? ?k] => destruct (hd eof rest =? k)
    end; rewrite ?H1, ?H2; reflexivity.
Qed.

(** X6: Each rune of the table of one-rune tokens is scanned as its kind, with
    an empty literal, and alone. *)
Theorem Scan_single_rune_token (kw : gmap (list Z) Z) (s : reader)
  (c : rune) (tok : Token) (rest : list rune) :
  In (c, tok) singleRuneTokens ->
  unconsumed s = c :: rest ->
  Scan kw s
  = Some (tok, posAt (src s) (cur s), [], mkReader (src s) (S (cur s))).
Proof.
  destruct s as [input n0]. unfold unconsumed. simpl. intros Hin Hdrop.
  unfold Scan. rewrite read_at, Hdrop. simpl hd.
  unfold singleRuneTokens in Hin. simpl in Hin.
  repeat (destruct Hin as [[= <- <-] | Hin];
          [known_tests; unfold Scan_switch; known_tests; reflexivity|]).
  destruct Hin.
Qed.

(** X7: A rune that is in no character class and has no [case] in the switch
    is returned as ILLEGAL, with itself as the literal, and alone. *)
Theorem Scan_illegal_rune (kw : gmap (list Z) Z) (s : reader) (c : rune)
  (rest : list rune) :
  isWhitespace c = false ->
  isIdentChar c = false ->
  ~ In c switchRunes ->
  unconsumed s = c :: rest ->
  Scan kw s
  = Some (ILLEGAL, posAt (src s) (cur s), [c], mkReader (src s) (S (cur s))).
Proof.
  destruct s as [input n0]. unfold unconsumed. simpl.
  intros Hws Hid Hsw Hdrop.
  unfold Scan. rewrite read_at, Hdrop. simpl hd. rewrite Hws.
  unfold isIdentChar in Hid. apply orb_false_elim in Hid as [Hid Hu].
  apply orb_false_elim in Hid as [Hl Hd]. rewrite Hl, Hu, Hd. simpl orb.
  cbv iota. unfold Scan_switch.
  assert (Hne : forall k : rune, In k switchRunes -> (c =? k) = false).
  { intros k Hk. apply Z.eqb_neq. intros ->. exact (Hsw Hk). }
  repeat match goal with
  | |- context [c =? ?k] =>
    rewrite (Hne k) by (unfold switchRunes, singleRuneTokens; simpl; tauto)
  end.
  reflexivity.
Qed.

(** ** Strings *)

Lemma scanString_plain_any (ending : rune) (input : list rune) (c : nat)
  (body rest : list rune) :
  ending <> eof ->
  drop c input = ending :: body ++ rest ->
  forallb (plainChar ending) body = true ->
  hd eof rest = ending \/ hd eof rest = eof ->
  scanString (mkReader input (S c))
  = Some (if hd eof rest =? ending then STRING else BADSTRING,
          (curr (mkReader input c)).2, body,
          mkReader input (S (S (c + length body)))).
Proof.
  intros Hne Hdrop Hbody Hrest. unfold scanString. rewrite unread_at.
  destruct (curr (mkReader input c)) as [ch pos].
  unfold ScanString. rewrite ReadRune_at, Hdrop. simpl hd.
  apply Z.eqb_neq in Hne. rewrite Hne.
  assert (Hr : drop (S c) input = body ++ rest)
    by (eapply drop_S_cons; exact Hdrop).
  rewrite (ScanString_loop_plain ending body rest input (S c)); try assumption;
    [|rewrite (fuel_at _ _ _ Hr), length_app; lia].
  cbn [mbind option_bind]. simpl.
  destruct (hd eof rest =? ending); reflexivity.
Qed.

(** X8: A single-quoted body without escapes is a STRING whose literal is the
    body, and a BADSTRING with the body read so far when the input ends
    before the closing quote.  The position is the one [curr] gives after
    the [unread] of [scanString]: that of the rune read before the opening
    quote. *)
Theorem Scan_single_quoted (kw : gmap (list Z) Z) (s : reader)
  (body rest : list rune) :
  forallb (plainChar squote) body = true ->
  rest = [] \/ hd eof rest = squote ->
  unconsumed s = squote :: body ++ rest ->
  exists s',
    Scan kw s
    = Some (if hd eof rest =? squote then STRING else BADSTRING,
            (curr s).2, body, s') /\
    unconsumed s' = tl rest.
Proof.
  destruct s as [input c]. unfold unconsumed. simpl cur. simpl src.
  intros Hbody Hrest Hdrop.
  unfold Scan. rewrite read_at, Hdrop. simpl hd. known_tests.
  unfold Scan_switch. known_tests.
  rewrite (scanString_plain_any squote input c body rest); try assumption.
  - eexists. split; [reflexivity|]. simpl.
    replace (S (S (c + length body)))
      with (S (c + length (squote :: body)))%nat by (simpl; lia).
    rewrite drop_S_tl. f_equal. apply drop_plus_app. exact Hdrop.
  - intros H; discriminate H.
  - destruct Hrest as [-> | H]; auto.
Qed.

(** X9: A bare word immediately followed by a double-quoted body is one IDENT
    at the position of the word: its literal is the quoted body alone, the
    bare word is dropped. *)
Theorem Scan_word_then_quoted (kw : gmap (list Z) Z) (s : reader)
  (w body rest : list rune) :
  w <> [] ->
  forallb isWordChar w = true ->
  forallb (plainChar dquote) body = true ->
  unconsumed s = w ++ dquote :: body ++ dquote :: rest ->
  exists s',
    Scan kw s = Some (IDENT, posAt (src s) (cur s), body, s') /\
    unconsumed s' = rest.
Proof.
  destruct s as [input c]. unfold unconsumed. simpl.
  intros Hne Hw Hbody Hdrop.
  assert (Hid := isWordChar_isIdentChar w Hw).
  assert (Hx : isWordChar (hd eof (w ++ dquote :: body ++ dquote :: rest)) = true).
  { destruct w; [congruence|]. simpl in Hw. apply andb_prop in Hw as [Hx _].
    exact Hx. }
  assert (Hcls : isWhitespace (hd eof (w ++ dquote :: body ++ dquote :: rest))
                 = false /\
                 isIdentChar (hd eof (w ++ dquote :: body ++ dquote :: rest))
                 = true /\
                 (hd eof (w ++ dquote :: body ++ dquote :: rest) =? eof) = false /\
                 (hd eof (w ++ dquote :: body ++ dquote :: rest) =? dquote) = false).
  { revert Hx. generalize (hd eof (w ++ dquote :: body ++ dquote :: rest)).
    intros x Hx. unfold isWordChar in Hx. rune_solve. }
  destruct Hcls as (Hws & Hic & He & Hq).
  unfold Scan. rewrite read_at, Hdrop, Hws. unfold isWordChar in Hx.
  rewrite Hx, unread_at.
  unfold scanIdent. rewrite read_at, unread_at, (fuel_at _ _ _ Hdrop).
  assert (Hfuel : exists k,
            S (length (w ++ dquote :: body ++ dquote :: rest)) = S (S k))
    by (destruct w; [congruence | simpl; eauto]).
  destruct Hfuel as [k ->]. cbn [scanIdent_loop].
  rewrite read_at, Hdrop, He, Hq, Hic, unread_at.
  unfold ScanBareIdent.
  rewrite (ScanBareIdent_loop_run w (dquote :: body ++ dquote :: rest) input c);
    try assumption; try reflexivity;
    [|rewrite (fuel_at _ _ _ Hdrop), length_app; lia].
  simpl hd. known_tests. cbn [mbind option_bind app scanIdent_loop].
  assert (Hr : drop (c + length w) input = dquote :: body ++ dquote :: rest)
    by (apply drop_plus_app; exact Hdrop).
  rewrite read_at, Hr. simpl hd. known_tests.
  rewrite (scanString_plain input (c + length w) body (dquote :: rest) Hr Hbody)
    by (left; reflexivity).
  simpl hd. known_tests. cbn [mbind option_bind]. known_tests.
  eexists. split; [reflexivity|]. unfold unconsumed. simpl.
  replace (S (S (c + length w + length body)))
    with (c + length (w ++ dquote :: body ++ [dquote]))%nat
    by (rewrite !length_app; simpl; rewrite length_app; simpl; lia).
  apply drop_plus_app. rewrite <- !app_assoc. simpl. rewrite <- app_assoc.
  exact Hdrop.
Qed.

(** ** EOF and the kinds that are never returned *)

(** X10: With kinds as in the registration contract, [Scan] returns EOF exactly
    when the rune it reads is the end-of-stream sentinel: at the end of the
    input, or on a rune zero in the input, which it consumes. *)
Theorem Scan_EOF_iff (kw : gmap (list Z) Z) (s : reader) :
  isContentKind NUMBER ->
  isContentKind DURATION_VAL ->
  keywords_ok kw ->
  (exists pos lit s', Scan kw s = Some (EOF, pos, lit, s')) <->
  hd eof (unconsumed s) = eof.
Proof.
  intros HN HD Hkw. split.
  - intros (pos & lit & s' & Hscan).
    apply Scan_shape in Hscan
      as [(_ & _ & Hhd & _) | [(_ & [H | H]) | [(_ & _ & name & H) | Hin]]].
    + exact Hhd.
    + discriminate H.
    + discriminate H.
    + apply Hkw in H. exfalso. clear -H. kinds_lia.
    + exfalso. clear -Hin HN HD. kinds_lia.
  - destruct s as [input c]. unfold unconsumed. simpl. intros Hhd.
    unfold Scan. rewrite read_at, Hhd. eauto.
Qed.

(** Every kind [Scan] returns is one the switch returns with an empty
    literal, one that comes with a literal, or a kind of the keyword
    table. *)
Lemma Scan_kinds (kw : gmap (list Z) Z) (s : reader) (tok : Token) (pos : Pos)
  (lit : gostring) (s' : reader) :
  Scan kw s = Some (tok, pos, lit, s') ->
  In tok fixedKinds \/ In tok contentKinds \/ keywordKind kw tok.
Proof.
  destruct s as [input c]. unfold Scan. rewrite read_at.
  set (x := hd eof (drop c input)).
  assert (Hident : forall s0, scanIdent kw s0 = Some (tok, pos, lit, s') ->
            In tok fixedKinds \/ In tok contentKinds \/ keywordKind kw tok).
  { intros s0 H. apply scanIdent_kind in H
      as [[-> | [-> | ->]] | (_ & _ & Hk)];
      [right; left; unfold contentKinds; simpl; auto 10 ..|].
    right. right. exact Hk. }
  assert (Hnum : forall s0, scanNumber s0 = Some (tok, pos, lit, s') ->
            In tok fixedKinds \/ In tok contentKinds \/ keywordKind kw tok).
  { intros s0 H.
    apply scanNumber_kind in H as [[_ [-> | ->]] | [-> | [-> | ->]]];
      first [ solve [left; unfold fixedKinds; simpl; auto 10]
            | solve [right; left; unfold contentKinds; simpl; auto 10] ]. }
  destruct (isWhitespace x).
  { intros H. apply scanWhitespace_kind in H. subst. right. left.
    unfold contentKinds. simpl. auto. }
  destruct (isLetter x || (x =? rn "_")); [apply Hident|].
  destruct (isDigit x); [apply Hnum|].
  unfold Scan_switch.
  destruct (x =? eof);
    [intros [= <- _ _ _]; left; unfold fixedKinds; simpl; auto|].
  destruct (x =? dquote); [apply Hident|].
  destruct (x =? squote).
  { intros H. apply scanString_kind in H as [-> | [-> | ->]];
      right; left; unfold contentKinds; simpl; auto 10. }
  destruct (read _) as [[ch1 p1] s1].
  destruct (x =? rn ".").
  { destruct (isDigit ch1); [apply Hnum|].
    intros [= <- _ _ _]. left. unfold fixedKinds. simpl. auto. }
  destruct ((x =? rn "+") || (x =? rn "-")); [apply Hnum|].
  repeat match goal with
  | |- (if ?b then _ else _) = _ -> _ => destruct b
  end;
  intros [= <- _ _ _];
  first [ solve [left; unfold fixedKinds, singleRuneTokens; simpl; auto 40]
        | solve [right; left; unfold contentKinds; simpl; auto 10] ].
Qed.

(** X11: With kinds as in the registration contract, [Scan] never returns
    SINGLEQUOTE, DOUBLEQUOTE, POW, ARROW or EQARROW: no [case] of the
    switch produces these declared kinds. *)
Theorem Scan_never_unscanned_kind (kw : gmap (list Z) Z) (s : reader)
  (tok : Token) (pos : Pos) (lit : gostring) (s' : reader) :
  isContentKind NUMBER ->
  isContentKind DURATION_VAL ->
  keywords_ok kw ->
  Scan kw s = Some (tok, pos, lit, s') ->
  ~ In tok unscannedKinds.
Proof.
  intros HN HD Hkw Hscan Hin.
  apply Scan_kinds in Hscan as [Hf | [Hc | [name Hk]]].
  - unfold fixedKinds, singleRuneTokens, unscannedKinds in *. simpl in *.
    repeat (destruct Hin as [<- | Hin];
            [repeat (destruct Hf as [Hf | Hf]; [discriminate Hf|]);
             exact Hf|]).
    exact Hin.
  - assert (Hband : 0 <= tok <= 2 \/ (19 < tok < 31))
      by (clear -Hc HN HD; kinds_lia).
    unfold unscannedKinds in Hin. simpl in Hin. clear -Hin Hband.
    unfold SINGLEQUOTE, DOUBLEQUOTE, POW, ARROW, EQARROW in Hin. lia.
  - apply Hkw in Hk. unfold unscannedKinds in Hin. simpl in Hin.
    clear -Hin Hk.
    unfold SINGLEQUOTE, DOUBLEQUOTE, POW, ARROW, EQARROW in Hin. kinds_lia.
Qed.

(** ** More on the tables *)

Lemma fold_insert_lookup_notin {K V E : Type} `{Countable K} (f : E -> K)
  (g : E -> V) (l : list E) :
  forall (m : gmap K V) (k : K),
    (forall e, In e l -> f e <> k) ->
    fold_left (fun m e => <[f e := g e]> m) l m !! k = m !! k.
Proof.
  induction l as [|a l IH]; intros m k Hk; [reflexivity|]. simpl.
  rewrite IH by (intros e He; apply Hk; right; exact He).
  apply lookup_insert_ne. apply Hk. left. reflexivity.
Qed.

Lemma fold_insert_lookup_in {K V E : Type} `{Countable K} (f : E -> K)
  (g : E -> V) (l : list E) :
  forall (m : gmap K V) (e : E),
    NoDup (map f l) -> In e l ->
    fold_left (fun m e => <[f e := g e]> m) l m !! f e = Some (g e).
Proof.
  induction l as [|a l IH]; intros m e Hnd Hin; [destruct Hin|].
  simpl in Hnd. apply NoDup_cons in Hnd as [Ha Hnd]. simpl.
  destruct Hin as [-> | Hin].
  - rewrite fold_insert_lookup_notin.
    + apply lookup_insert_eq.
    + intros e' He' Heq. apply Ha. rewrite <- Heq.
      apply list_elem_of_In. apply in_map. exact He'.
  - apply IH; assumption.
Qed.

Lemma fold_insert_lookup_is_Some {K V E : Type} `{Countable K} (f : E -> K)
  (g : E -> V) (l : list E) :
  forall (m : gmap K V) (k : K),
    is_Some (m !! k) ->
    is_Some (fold_left (fun m e => <[f e := g e]> m) l m !! k).
Proof.
  induction l as [|a l IH]; intros m k Hk; [exact Hk|]. simpl.
  apply IH. destruct (decide (f a = k)) as [<- | Hne].
  - rewrite lookup_insert_eq. eauto.
  - rewrite lookup_insert_ne by exact Hne. exact Hk.
Qed.



(** X12: After a registration every registered kind renders as its display
    string and every display string looks up as its kind, when no two
    entries share a kind or a lower-cased display string. *)
Theorem LoadTokenMap_round_trip (m : list (Token * gostring)) (t : Tables)
  (k : Token) (v : gostring) :
  NoDup (map fst m) ->
  NoDup (map (fun kv : Token * gostring => ToLower kv.2) m) ->
  In (k, v) m ->
  Token_String (tokens (LoadTokenMap ToLower m t)) k = v /\
  Lookup (keywords (LoadTokenMap ToLower m t)) v = k.
Proof.
  intros Hk Hv Hin. unfold Token_String, Lookup, LoadTokenMap. simpl.
  pose proof (fold_insert_lookup_in (fun kv : Token * gostring => kv.1)
                (fun kv => kv.2) m (tokens t) (k, v) Hk Hin) as E1.
  pose proof (fold_insert_lookup_in (fun kv : Token * gostring => ToLower kv.2)
                (fun kv => kv.1) m (keywords t) (k, v) Hv Hin) as E2.
  simpl in E1, E2. unfold Token in *. rewrite E1, E2.
  split; reflexivity.
Qed.

(** X13: A registration only adds and overwrites: a kind that had a display
    string still has one, a name that was a keyword still is one, and the
    kinds and names the registration does not mention are as before. *)
Theorem LoadTokenMap_additive (m : list (Token * gostring)) (t : Tables) :
  (forall k : Token,
     is_Some (tokens t !! k) ->
     is_Some (tokens (LoadTokenMap ToLower m t) !! k)) /\
  (forall name : gostring,
     is_Some (keywords t !! name) ->
     is_Some (keywords (LoadTokenMap ToLower m t) !! name)) /\
  (forall k : Token,
     (forall e, In e m -> e.1 <> k) ->
     Token_String (tokens (LoadTokenMap ToLower m t)) k
     = Token_String (tokens t) k) /\
  (forall name : gostring,
     (forall e, In e m -> ToLower e.2 <> ToLower name) ->
     Lookup (keywords (LoadTokenMap ToLower m t)) name
     = Lookup (keywords t) name).
Proof.
  unfold LoadTokenMap, Token_String, Lookup. simpl. repeat split.
  - intros k. apply fold_insert_lookup_is_Some.
  - intros name. apply fold_insert_lookup_is_Some.
  - intros k Hk.
    rewrite (fold_insert_lookup_notin (fun kv : Token * gostring => kv.1)
               (fun kv => kv.2)) by exact Hk. reflexivity.
  - intros name Hn.
    rewrite (fold_insert_lookup_notin
               (fun kv : Token * gostring => ToLower kv.2) (fun kv => kv.1))
      by exact Hn. reflexivity.
Qed.

(** X14: Registering a kind again under another display string overwrites the
    string, and leaves the old name a keyword of that kind beside the new
    one. *)
Theorem LoadTokenMap_reregister (t : Tables) (k : Token) (v1 v2 : gostring) :
  let t' := LoadTokenMap ToLower [(k, v2)] (LoadTokenMap ToLower [(k, v1)] t) in
  Token_String (tokens t') k = v2 /\
  Lookup (keywords t') v1 = k /\
  Lookup (keywords t') v2 = k.
Proof.
  unfold LoadTokenMap, Token_String, Lookup. simpl. repeat split.
  - rewrite lookup_insert_eq. reflexivity.
  - destruct (decide (ToLower v2 = ToLower v1)) as [-> | Hne].
    + rewrite lookup_insert_eq. reflexivity.
    + rewrite lookup_insert_ne by exact Hne.
      rewrite lookup_insert_eq. reflexivity.
  - rewrite lookup_insert_eq. reflexivity.
Qed.


(** ** Display strings and precedence *)

(** Split on the value of [tok] from [lo] upwards, [n] values. *)
Ltac enum_from tok lo n :=
  lazymatch n with
  | O => idtac
  | S ?n' =>
    destruct (Z.eq_dec tok lo) as [-> | ?];
    [ | let lo' := eval vm_compute in (lo + 1) in enum_from tok lo' n' ]
  end.

(** X16: A kind has a precedence other than 0 exactly if it is an operator
    other than AMPERSAND, ARROW and EQARROW; the precedence is at most
    6. *)
Theorem Precedence_operator (tok : Token) :
  (Precedence tok <> 0 <->
   isOperator tok = true /\ ~ In tok [AMPERSAND; ARROW; EQARROW]) /\
  0 <= Precedence tok <= 6.
Proof.
  unfold Precedence, isOperator, OR, AND, EQ, NEQ, EQREGEX, NEQREGEX, LT, LTE,
    GT, GTE, PLUS, MINUS, MUL, DIV, PIPE, XOR, RSHIFT, LSHIFT, POW, AMPERSAND,
    ARROW, EQARROW, startOperators, endOperators.
  simpl In.
  repeat match goal with
  | |- context [?a =? ?b] =>
    destruct (Z.eqb_spec a b);
    [ subst; cbn [orb]; split; [split; [intros _; split; [reflexivity | lia]
                                       | intros _; lia] | lia] | ]
  end.
  cbn [orb]. split; [|lia]. split; [intros H; lia|].
  intros [H1 H2]. apply andb_true_iff in H1 as [H1 H3].
  apply Z.ltb_lt in H1, H3. lia.
Qed.

(** X17: The initial table gives every declared kind a display string that is
    not empty, except the three sentinels inside the [const] block; an
    integer that is no declared kind, [endOperators] included, has the
    empty one. *)
Theorem Token_String_declared (tok : Token) :
  Token_String init_tokens tok = [] <->
  ~ (ILLEGAL <= tok < endOperators) \/
  In tok [startLiterals; endLiterals; startOperators].
Proof.
  unfold ILLEGAL, endOperators, startLiterals, endLiterals, startOperators.
  simpl In.
  destruct (decide (0 <= tok < 55)) as [Hin | Hout].
  - enum_from tok 0 ltac:(eval cbv in 55%nat);
      try (exfalso; lia);
      first
        [ solve [ split;
                  [ intros H; vm_compute in H; discriminate H
                  | intros [H | H]; [exfalso; apply H; lia | lia] ] ]
        | solve [ split; [ intros _; right; lia
                         | intros _; vm_compute; reflexivity ] ] ].
  - split; [intros _; left; exact Hout|]. intros _.
    unfold Token_String, init_tokens.
    rewrite not_elem_of_list_to_map_1; [reflexivity|].
    cbn [fmap list_fmap fst].
    unfold ILLEGAL, EOF, WS, LPAREN, RPAREN, LBRACKET, RBRACKET, LCURLY, RCURLY,
      COMMA, SEMICOLON, COLON, DOT, SINGLEQUOTE, DOUBLEQUOTE, PERCENT, DOLLAR,
      HASH, ATSIGN, IDENT, INTEGER, DECIMAL, STRING, DURATION, BADSTRING,
      BADESCAPE, REGEX, BADREGEX, PLUS, MINUS, MUL, DIV, AMPERSAND, XOR, PIPE,
      RSHIFT, LSHIFT, POW, ARROW, EQARROW, AND, OR, TRUE, FALSE, EQ, NEQ,
      EQREGEX, NEQREGEX, LT, LTE, GT, GTE.
    rewrite !not_elem_of_cons. repeat split; try lia. apply not_elem_of_nil.
Qed.

End ScannerProperties.

(** ** The token buffer *)

Section TokenBufferProperties.

Variable St : Type.
Variable scan : St -> option (result * St).

Local Ltac Zify.zify_post_hook ::= Z.div_mod_to_equations.

Ltac int_lia :=
  unfold buffer_ok, capacity in *;
  change (2 ^ 64) with 18446744073709551616 in *;
  change (2 ^ 63) with 9223372036854775808 in *;
  simpl s in *; simpl i in *; simpl n in *; simpl buf in *;
  rewrite ?length_insert; lia.

Lemma wrap_int_small (z : Z) : - 2 ^ 63 <= z < 2 ^ 63 -> wrap_int z = z.
Proof.
  intros H. unfold wrap_int. rewrite Z.mod_small; int_lia.
Qed.

Lemma Current_slot (b : TokenBuffer St) :
  buffer_ok b -> n b <= i b + 6 -> Current b = buf b !! slot (i b - n b).
Proof.
  intros (Hlen & Hi & Hn) Hle. unfold Current, index, capacity in *.
  rewrite (wrap_int_small (i b - n b)) by int_lia.
  rewrite (wrap_int_small (i b - n b + 6)) by int_lia.
  rewrite Z.rem_mod_nonneg by lia.
  replace ((i b - n b + 6) mod 6) with ((i b - n b) mod 6)
    by (rewrite <- (Z.mod_add (i b - n b) 1 6) by lia; f_equal; lia).
  assert (H : 0 <= (i b - n b) mod 6 < 6) by (apply Z.mod_pos_bound; lia).
  destruct H as [H0 H6]. apply Z.leb_le in H0. apply Z.ltb_lt in H6.
  rewrite H0, H6. reflexivity.
Qed.

Lemma unscans_closed (k : nat) :
  forall b : TokenBuffer St,
    0 <= n b -> n b + Z.of_nat k < 2 ^ 63 ->
    unscans k b = mkTokenBuffer (s b) (i b) (n b + Z.of_nat k) (buf b).
Proof.
  induction k as [|k IH]; intros b H0 Hk.
  - simpl. rewrite Z.add_0_r. destruct b; reflexivity.
  - cbn [unscans]. rewrite IH; unfold Unscan; simpl;
      rewrite ?wrap_int_small by int_lia; try int_lia.
    f_equal. lia.
Qed.

(** The two ways a call of [ScanFunc] succeeds. *)
Lemma ScanFunc_inv (b b' : TokenBuffer St) (t : result) :
  buffer_ok b ->
  ScanFunc scan b = Some (t, b') ->
  (0 < n b /\ b' = mkTokenBuffer (s b) (i b) (n b - 1) (buf b) /\
   Current b' = Some t) \/
  (n b = 0 /\ exists s',
     scan (s b) = Some (t, s') /\
     b' = mkTokenBuffer s' ((i b + 1) mod 6) 0
            (<[slot (i b + 1) := t]> (buf b))).
Proof.
  intros (Hlen & Hi & Hn). unfold ScanFunc, capacity in *.
  destruct (0 <? n b) eqn:Hpos.
  - apply Z.ltb_lt in Hpos. rewrite wrap_int_small by int_lia.
    destruct (Current _) as [res|] eqn:Hc; [|discriminate].
    cbn [mbind option_bind]. intros [= <- <-]. left. auto.
  - apply Z.ltb_ge in Hpos. assert (Hn0 : n b = 0) by lia.
    rewrite wrap_int_small by int_lia. rewrite Z.rem_mod_nonneg by lia.
    destruct (index (buf b) ((i b + 1) mod 6)); [|discriminate].
    cbn [mbind option_bind].
    destruct (scan (s b)) as [[res s']|] eqn:Hs; [|discriminate].
    cbn [mbind option_bind].
    set (b1 := mkTokenBuffer s' ((i b + 1) mod 6) (n b)
                 (<[Z.to_nat ((i b + 1) mod 6) := res]> (buf b))).
    assert (Hok : buffer_ok b1).
    { unfold b1. int_lia. }
    rewrite (Current_slot b1 Hok) by (unfold b1; simpl; lia).
    unfold b1. simpl. rewrite Hn0, Z.sub_0_r. unfold slot.
    rewrite Z.mod_mod by lia. rewrite list_lookup_insert_eq by lia.
    cbn [mbind option_bind]. intros [= <- <-]. right.
    split; [reflexivity|]. exists s'. split; reflexivity.
Qed.

Lemma ScanFunc_ok (b b' : TokenBuffer St) (t : result) :
  buffer_ok b -> ScanFunc scan b = Some (t, b') -> buffer_ok b'.
Proof.
  intros Hok H. destruct (ScanFunc_inv b b' t Hok H)
    as [(Hn & -> & _) | (Hn & s' & _ & ->)];
    destruct Hok as (Hlen & Hi & Hn0); int_lia.
Qed.

(** Where [k] calls leave the write index and the pending count. *)
Lemma scans_track (k : nat) :
  forall (b b1 : TokenBuffer St) (ts : list result),
    buffer_ok b ->
    scans scan k b = Some (ts, b1) ->
    buffer_ok b1 /\ length ts = k /\
    n b1 = Z.max 0 (n b - Z.of_nat k) /\
    (i b1 - n b1) mod 6 = (i b - n b + Z.of_nat k) mod 6.
Proof.
  induction k as [|k IH]; intros b b1 ts Hok Hs.
  - simpl in Hs. injection Hs as <- <-. destruct Hok as (? & ? & ?).
    repeat split; try assumption; try lia; try (f_equal; lia).
  - cbn [scans] in Hs.
    destruct (ScanFunc scan b) as [[t b']|] eqn:Hf; [|discriminate].
    cbn [mbind option_bind] in Hs.
    destruct (scans scan k b') as [[ts' b2]|] eqn:Hs'; [|discriminate].
    cbn [mbind option_bind] in Hs. injection Hs as <- <-.
    destruct (IH b' b2 ts' (ScanFunc_ok b b' t Hok Hf) Hs')
      as (Hok2 & Hlen & Hn2 & Hc).
    split; [exact Hok2|]. split; [simpl; lia|].
    destruct (ScanFunc_inv b b' t Hok Hf)
      as [(Hn & -> & _) | (Hn & s' & _ & ->)]; simpl in *.
    + split; [lia|]. rewrite Hc. f_equal. lia.
    + split; [lia|]. rewrite Hc, Z.sub_0_r, Hn, Z.sub_0_r.
      rewrite Zplus_mod_idemp_l. f_equal. lia.
Qed.

(** A slot that the fresh scans among [k] calls do not reach keeps its
    entry. *)
Lemma scans_preserve (k : nat) :
  forall (b b1 : TokenBuffer St) (ts : list result) (q : nat),
    buffer_ok b ->
    scans scan k b = Some (ts, b1) ->
    (forall e : Z, 1 <= e <= Z.of_nat k - n b -> slot (i b + e) <> q) ->
    buf b1 !! q = buf b !! q.
Proof.
  induction k as [|k IH]; intros b b1 ts q Hok Hs Hq.
  - simpl in Hs. injection Hs as <- <-. reflexivity.
  - cbn [scans] in Hs.
    destruct (ScanFunc scan b) as [[t b']|] eqn:Hf; [|discriminate].
    cbn [mbind option_bind] in Hs.
    destruct (scans scan k b') as [[ts' b2]|] eqn:Hs'; [|discriminate].
    cbn [mbind option_bind] in Hs. injection Hs as <- <-.
    assert (Hok' := ScanFunc_ok b b' t Hok Hf).
    destruct (ScanFunc_inv b b' t Hok Hf)
      as [(Hn & -> & _) | (Hn & s' & _ & ->)].
    + rewrite (IH _ _ _ q Hok' Hs'); [reflexivity|].
      simpl. intros e He. apply Hq. lia.
    + rewrite (IH _ _ _ q Hok' Hs').
      * simpl. apply list_lookup_insert_ne. apply Hq. lia.
      * simpl. intros e He. unfold slot. rewrite Zplus_mod_idemp_l.
        replace (i b + 1 + e) with (i b + (1 + e)) by lia. apply Hq. lia.
Qed.

Lemma scans_app (j k : nat) :
  forall (b b1 : TokenBuffer St) (ts : list result),
    scans scan (j + k) b = Some (ts, b1) ->
    exists b0,
      scans scan j b = Some (take j ts, b0) /\
      scans scan k b0 = Some (drop j ts, b1).
Proof.
  induction j as [|j IH]; intros b b1 ts Hs.
  - exists b. simpl. rewrite drop_0. auto.
  - cbn [Nat.add scans] in *.
    destruct (ScanFunc scan b) as [[t b']|]; [|discriminate].
    cbn [mbind option_bind] in *.
    destruct (scans scan (j + k) b') as [[ts' b2]|] eqn:Hs'; [|discriminate].
    cbn [mbind option_bind] in Hs. injection Hs as <- <-.
    destruct (IH b' b2 ts' Hs') as (b0 & -> & Hk).
    exists b0. cbn [mbind option_bind]. simpl. auto.
Qed.

Lemma ScanFunc_replay (scan' : St -> option (result * St)) (b : TokenBuffer St)
  (t : result) :
  buffer_ok b ->
  0 < n b ->
  n b - 1 <= i b + 6 ->
  buf b !! slot (i b - (n b - 1)) = Some t ->
  ScanFunc scan' b = Some (t, mkTokenBuffer (s b) (i b) (n b - 1) (buf b)).
Proof.
  intros Hok Hpos Hle Ht. unfold ScanFunc.
  apply Z.ltb_lt in Hpos. rewrite Hpos. apply Z.ltb_lt in Hpos.
  rewrite wrap_int_small by (destruct Hok as (_ & _ & ?); int_lia).
  rewrite Current_slot; simpl; [rewrite Ht; reflexivity | | lia].
  destruct Hok as (? & ? & ?). int_lia.
Qed.

(** After [k] calls of [ScanFunc], [k] calls of [Unscan] and [k] further
    calls of [ScanFunc] give the same triples again and end in the same
    state, whatever scan function the further calls are given. *)
Lemma replay_last (scan' : St -> option (result * St)) (k : nat) :
  forall (b b1 : TokenBuffer St) (ts : list result),
    buffer_ok b ->
    scans scan k b = Some (ts, b1) ->
    n b1 + Z.of_nat k <= capacity ->
    scans scan' k (unscans k b1) = Some (ts, b1).
Proof.
  induction k as [|k IH]; intros b b1 ts Hok Hs Hcap.
  - simpl in *. injection Hs as <- <-. reflexivity.
  - cbn [scans] in Hs.
    destruct (ScanFunc scan b) as [[t b']|] eqn:Hf; [|discriminate].
    cbn [mbind option_bind] in Hs.
    destruct (scans scan k b') as [[ts' b2]|] eqn:Hs'; [|discriminate].
    cbn [mbind option_bind] in Hs. injection Hs as <- <-.
    assert (Hok' := ScanFunc_ok b b' t Hok Hf).
    destruct (scans_track k b' b2 ts' Hok' Hs') as (Hok2 & _ & Hn2 & Hcur).
    assert (Hcap' : n b2 + Z.of_nat k <= capacity) by lia.
    assert (HIH := IH b' b2 ts' Hok' Hs' Hcap').
    assert (Hb2 : 0 <= n b2 < 2 ^ 63) by (destruct Hok2 as (_ & _ & ?); assumption).
    unfold capacity in *.
    rewrite unscans_closed in HIH |- * by int_lia.
    assert (Hslot : buf b2 !! slot (i b2 - (n b2 + Z.of_nat (S k) - 1)) = Some t).
    { assert (Hn' : 0 <= n b' <= 5) by (destruct Hok' as (_ & _ & ?); int_lia).
      replace (slot (i b2 - (n b2 + Z.of_nat (S k) - 1)))
        with (slot (i b' - n b')).
      2:{ unfold slot. f_equal.
          replace (i b2 - (n b2 + Z.of_nat (S k) - 1))
            with (i b2 - n b2 - Z.of_nat k) by lia.
          rewrite <- (Zminus_mod_idemp_l (i b2 - n b2)), Hcur.
          rewrite Zminus_mod_idemp_l. f_equal. lia. }
      rewrite (scans_preserve k b' b2 ts' _ Hok' Hs').
      - destruct (ScanFunc_inv b b' t Hok Hf)
          as [(Hn & Hb' & Hc) | (Hn & s' & _ & Hb')].
        + rewrite <- Current_slot; [exact Hc | exact Hok' |].
          destruct Hok' as (_ & ? & _). int_lia.
        + subst b'. simpl. rewrite Z.sub_0_r. unfold slot.
          rewrite Z.mod_mod by lia. apply list_lookup_insert_eq.
          destruct Hok as (Hlen & ? & _). rewrite Hlen.
          assert (0 <= (i b + 1) mod 6 < 6) by (apply Z.mod_pos_bound; lia).
          lia.
      - intros e He Heq. unfold slot in Heq.
        apply Z2Nat.inj in Heq; try (apply Z.mod_pos_bound; lia).
        assert (Hd : (n b' + e) mod 6 = 0).
        { replace (n b' + e) with ((i b' + e) - (i b' - n b')) by lia.
          rewrite Zminus_mod, Heq, Z.sub_diag. reflexivity. }
        rewrite Z.mod_small in Hd by lia. lia. }
    cbn [scans].
    rewrite (ScanFunc_replay scan' _ t); simpl; try assumption.
    + replace (n b2 + Z.of_nat (S k) - 1) with (n b2 + Z.of_nat k) by lia.
      rewrite HIH. reflexivity.
    + destruct Hok2 as (? & ? & ?). int_lia.
    + lia.
    + destruct Hok2 as (_ & ? & _). int_lia.
Qed.

End TokenBufferProperties.

(** C3: after [j] calls of [Scan] on a token buffer, [k <= j] calls of
    [Unscan], with a pending replay count of at most capacity - 1, make the
    next [k] calls of [Scan] return the last [k] of the [j] triples again,
    in the order they were first returned.  These calls do not invoke the
    wrapped scanner: they return the same whatever scan function they are
    given, and leave the buffer, the state of the wrapped scanner
    included, as it was before the [Unscan] calls. *)
Theorem TokenBuffer_replay (St : Type) (scan scan' : St -> option (result * St))
  (b b1 : TokenBuffer St) (ts : list result) (j k : nat) :
  buffer_ok b ->
  (k <= j)%nat ->
  scans scan j b = Some (ts, b1) ->
  n b1 + Z.of_nat k <= capacity - 1 ->
  scans scan' k (unscans k b1) = Some (drop (j - k) ts, b1).
Proof.
  intros Hok Hkj Hs Hcap.
  replace j with ((j - k) + k)%nat in Hs by lia.
  destruct (scans_app St scan (j - k) k b b1 ts Hs) as (b0 & Hj & Hk).
  destruct (scans_track St scan (j - k) b b0 _ Hok Hj) as (Hok0 & _).
  apply (replay_last St scan scan' k b0 b1 _ Hok0 Hk). lia.
Qed.

(** ** More on the token buffer *)

Section TokenBufferMore.

Variable St : Type.
Variable scan : St -> option (result * St).

Local Ltac Zify.zify_post_hook ::= Z.to_euclidean_division_equations.

Ltac int_lia :=
  unfold buffer_ok, capacity in *;
  change (2 ^ 64) with 18446744073709551616 in *;
  change (2 ^ 63) with 9223372036854775808 in *;
  simpl s in *; simpl i in *; simpl n in *; simpl buf in *;
  rewrite ?length_insert; lia.

(** A call of [ScanFunc] with nothing to replay. *)
Lemma ScanFunc_fresh (b : TokenBuffer St) :
  buffer_ok b -> n b = 0 ->
  ScanFunc scan b =
  match scan (s b) with
  | Some (t, s') =>
    Some (t, mkTokenBuffer s' ((i b + 1) mod 6) 0
               (<[slot (i b + 1) := t]> (buf b)))
  | None => None
  end.
Proof.
  intros (Hlen & Hi & Hn) Hn0. unfold ScanFunc, capacity in *.
  rewrite Hn0. change (0 <? 0) with false. cbv iota.
  rewrite wrap_int_small by int_lia. rewrite Z.rem_mod_nonneg by lia.
  assert (Hm : 0 <= (i b + 1) mod 6 < 6) by (apply Z.mod_pos_bound; lia).
  unfold index at 1, capacity.
  destruct Hm as [H0 H6].
  rewrite (proj2 (Z.leb_le _ _) H0), (proj2 (Z.ltb_lt _ _) H6). cbn [andb].
  destruct (lookup_lt_is_Some_2 (buf b) (Z.to_nat ((i b + 1) mod 6)))
    as [x Hx]; [lia|].
  rewrite Hx. cbn [mbind option_bind].
  destruct (scan (s b)) as [[t s']|]; [|reflexivity].
  cbn [mbind option_bind].
  set (b1 := mkTokenBuffer s' ((i b + 1) mod 6) 0
               (<[Z.to_nat ((i b + 1) mod 6) := t]> (buf b))).
  assert (Hok : buffer_ok b1) by (unfold b1; int_lia).
  rewrite (Current_slot St b1 Hok) by (unfold b1; simpl; lia).
  unfold b1. simpl. rewrite Z.sub_0_r. unfold slot.
  rewrite Z.mod_mod by lia. rewrite list_lookup_insert_eq by lia.
  reflexivity.
Qed.

(** A call of [ScanFunc] with something to replay, inside the window of
    the array. *)
Lemma ScanFunc_pending (b : TokenBuffer St) :
  buffer_ok b -> 0 < n b -> n b <= i b + capacity + 1 ->
  exists t, buf b !! slot (i b - (n b - 1)) = Some t /\
    ScanFunc scan b = Some (t, mkTokenBuffer (s b) (i b) (n b - 1) (buf b)).
Proof.
  intros Hok Hpos Hle. pose proof Hok as (Hlen & Hi & Hn).
  unfold ScanFunc, capacity in *.
  rewrite (proj2 (Z.ltb_lt _ _) Hpos).
  rewrite wrap_int_small by int_lia.
  set (b1 := mkTokenBuffer (s b) (i b) (n b - 1) (buf b)).
  assert (Hok1 : buffer_ok b1) by (unfold b1; int_lia).
  rewrite (Current_slot St b1 Hok1) by (unfold b1; simpl; lia).
  unfold b1. simpl.
  destruct (lookup_lt_is_Some_2 (buf b) (slot (i b - (n b - 1)))) as [t Ht].
  { unfold slot. rewrite Hlen.
    assert (0 <= (i b - (n b - 1)) mod 6 < 6) by (apply Z.mod_pos_bound; lia).
    lia. }
  exists t. rewrite Ht. split; reflexivity.
Qed.

(** X18: As long as at most [i + capacity + 1] replays are pending, a call of
    [ScanFunc] fails only if it has nothing to replay and the wrapped
    scanner fails: no index leaves the array. *)
Theorem ScanFunc_fails_only_with_scanner (b : TokenBuffer St) :
  buffer_ok b -> n b <= i b + capacity + 1 ->
  (ScanFunc scan b = None <-> n b = 0 /\ scan (s b) = None).
Proof.
  intros Hok Hle. pose proof Hok as (Hlen & Hi & Hn).
  destruct (Z.eq_dec (n b) 0) as [Hn0 | Hn0].
  - rewrite (ScanFunc_fresh b Hok Hn0).
    destruct (scan (s b)) as [[t s']|]; split; try discriminate; auto.
    intros [_ H]. discriminate H.
  - destruct (ScanFunc_pending b Hok) as (t & _ & ->); [lia | exact Hle |].
    split; [discriminate | intros [H _]; contradiction].
Qed.

(** X19: With more than [i + capacity + 1] replays pending, the index of the
    triple to replay is not positive: the call panics, unless the index is
    0, where it returns the first entry of the array. *)
Theorem ScanFunc_outside_window (b : TokenBuffer St) :
  buffer_ok b -> i b + capacity + 1 < n b ->
  ScanFunc scan b =
  if (n b - 1 - i b) mod capacity =? 0 then
    t ← buf b !! 0%nat;
    Some (t, mkTokenBuffer (s b) (i b) (n b - 1) (buf b))
  else None.
Proof.
  intros (Hlen & Hi & Hn) Hout. unfold ScanFunc, capacity in *.
  assert (Hpos : 0 < n b) by lia.
  rewrite (proj2 (Z.ltb_lt _ _) Hpos).
  rewrite wrap_int_small by int_lia.
  unfold Current, index, capacity. simpl.
  rewrite (wrap_int_small (i b - (n b - 1))) by int_lia.
  rewrite (wrap_int_small (i b - (n b - 1) + 6)) by int_lia.
  destruct (Z.eqb_spec ((n b - 1 - i b) mod 6) 0) as [Hz | Hnz].
  - assert (Hr : Z.rem (i b - (n b - 1) + 6) 6 = 0) by lia.
    rewrite Hr. reflexivity.
  - assert (Hr : Z.rem (i b - (n b - 1) + 6) 6 < 0) by lia.
    destruct (Z.leb_spec 0 (Z.rem (i b - (n b - 1) + 6) 6)); [lia|].
    reflexivity.
Qed.


(** X21: Without a call of [Unscan] the buffer is transparent: [k] calls of
    [ScanFunc] return what [k] calls of the wrapped scanner return, fail
    where they fail, and leave nothing to replay. *)
Theorem scans_pass_through (k : nat) :
  forall b : TokenBuffer St,
    buffer_ok b -> n b = 0 ->
    match scans scan k b with
    | Some (ts, b1) => scan_list scan k (s b) = Some (ts, s b1) /\ n b1 = 0
    | None => scan_list scan k (s b) = None
    end.
Proof.
  induction k as [|k IH]; intros b Hok Hn0.
  - simpl. split; [reflexivity | exact Hn0].
  - cbn [scans scan_list].
    pose proof (ScanFunc_fresh b Hok Hn0) as Hf.
    destruct (scan (s b)) as [[t s']|] eqn:Hs.
    + rewrite Hf. cbn [mbind option_bind].
      set (b1 := mkTokenBuffer s' ((i b + 1) mod 6) 0
                   (<[slot (i b + 1) := t]> (buf b))).
      assert (Hok1 : buffer_ok b1) by (eapply ScanFunc_ok; eauto).
      specialize (IH b1 Hok1 eq_refl).
      change (s b1) with s' in IH.
      destruct (scans scan k b1) as [[ts b2]|].
      * destruct IH as [-> Hn2]. cbn [mbind option_bind].
        split; [reflexivity | exact Hn2].
      * rewrite IH. reflexivity.
    + rewrite Hf. reflexivity.
Qed.

(** X22: On a new buffer up to seven calls of [Unscan] are answered by as many
    zero triples, ILLEGAL with the empty literal at the zero position,
    without a call of the wrapped scanner. *)
Theorem NewTokenBuffer_unscan (s0 : St) (k : nat) :
  (k <= 7)%nat ->
  scans scan k (unscans k (NewTokenBuffer s0))
  = Some (replicate k zeroResult, NewTokenBuffer s0).
Proof.
  intros Hk.
  do 8 (destruct k as [|k]; [vm_compute; reflexivity|]). lia.
Qed.

End TokenBufferMore.

(** * The statements at concrete inputs *)

(** ** The examples of the specification, run on the embedding *)

Example Scan_all_whitespace_example :
  exScan_all init_keywords 4 (NewScanner (str "a   b"))
  = Some [(IDENT, mkPos 0 0, str "a"); (WS, mkPos 0 1, str "   ");
          (IDENT, mkPos 0 4, str "b"); (EOF, mkPos 0 5, [])].
Proof. vm_compute. reflexivity. Qed.

Example Scan_all_fraction_example :
  exScan_all init_keywords 3 (NewScanner (str "10.5s"))
  = Some [(exNUMBER, mkPos 0 0, str "10.5"); (IDENT, mkPos 0 4, str "s");
          (EOF, mkPos 0 5, [])].
Proof. vm_compute. reflexivity. Qed.

Example Scan_all_duration_examples :
  exScan_all init_keywords 1 (NewScanner (str "10s"))
  = Some [(exDURATION_VAL, mkPos 0 0, str "10s")] /\
  exScan_all init_keywords 1 (NewScanner (str "10ms"))
  = Some [(exDURATION_VAL, mkPos 0 0, str "10ms")] /\
  exScan_all init_keywords 1 (NewScanner (str "10"))
  = Some [(exNUMBER, mkPos 0 0, str "10")].
Proof. vm_compute. auto. Qed.

Example Scan_all_sign_examples :
  exScan_all init_keywords 1 (NewScanner (str "+"))
  = Some [(PLUS, mkPos 0 0, [])] /\
  exScan_all init_keywords 1 (NewScanner (str "+3"))
  = Some [(exNUMBER, mkPos 0 0, str "+3")] /\
  exScan_all init_keywords 1 (NewScanner (str "-.5"))
  = Some [(exNUMBER, mkPos 0 0, str "-.5")].
Proof. vm_compute. auto. Qed.

Example Scan_all_word_examples :
  exScan_all init_keywords 1 (NewScanner (str "hello"))
  = Some [(IDENT, mkPos 0 0, str "hello")] /\
  exScan_all init_keywords 1 (NewScanner (str "AND"))
  = Some [(AND, mkPos 0 0, [])] /\
  exScan_all init_keywords 1 (NewScanner (str "and"))
  = Some [(AND, mkPos 0 0, [])].
Proof. vm_compute. auto. Qed.

Example Scan_all_unterminated_string_example :
  exScan_all init_keywords 1 (NewScanner (squote :: str "abc"))
  = Some [(BADSTRING, mkPos 0 0, str "abc")].
Proof. vm_compute. reflexivity. Qed.

(** The rune zero in the input is taken for the end of the stream: EOF is
    returned, and the tokens after it follow. *)
Example Scan_all_zero_rune_example :
  exScan_all init_keywords 3 (NewScanner (0 :: str "cd"))
  = Some [(EOF, mkPos 0 0, []); (IDENT, mkPos 0 1, str "cd");
          (EOF, mkPos 0 3, [])].
Proof. vm_compute. reflexivity. Qed.

(** ** C1 *)

(** C1 as stated fails: on the input [.] no choice of the parameters makes
    [Scan] return ILLEGAL with the literal [.]; it returns DOT. *)
Lemma Scan_lone_dot_not_ILLEGAL :
  ~ (exists (NUMBER DURATION_VAL : Token) (ToLower : gostring -> gostring)
       (kw : gmap (list Z) Z) (pos : Pos) (s' : reader),
       Scan NUMBER DURATION_VAL ToLower kw (NewScanner (str "."))
       = Some (ILLEGAL, pos, str ".", s')).
Proof.
  intros (NUMBER & DURATION_VAL & ToLower & kw & pos & s' & H).
  vm_compute in H. discriminate H.
Qed.

Lemma Scan_dot_not_digit_witness :
  unconsumed (NewScanner (str ".x")) = rn "." :: str "x" /\
  isDigit (hd eof (str "x")) = false /\
  exScan init_keywords (NewScanner (str ".x"))
  = Some (DOT, mkPos 0 0, [], mkReader (str ".x") 1).
Proof.
  split; [reflexivity|]. split; [reflexivity|].
  exact (Scan_dot_not_digit exNUMBER exDURATION_VAL asciiToLower init_keywords
           (NewScanner (str ".x")) (str "x") eq_refl eq_refl).
Defined.

(** ** C2 *)

Lemma Scan_duration_only_without_fraction_witness :
  isSign [] /\
  forallb isDigit (str "10") = true /\
  (exists s',
     exScan init_keywords (NewScanner (str "10s"))
     = Some (exDURATION_VAL, mkPos 0 0, str "10s", s') /\
     unconsumed s' = []) /\
  (exists s',
     exScan init_keywords (NewScanner (str "10ms"))
     = Some (exDURATION_VAL, mkPos 0 0, str "10ms", s') /\
     unconsumed s' = []) /\
  (exists s',
     exScan init_keywords (NewScanner (str "10.5s"))
     = Some (exNUMBER, mkPos 0 0, str "10.5", s') /\
     unconsumed s' = str "s").
Proof.
  assert (Hne : str "10" <> []) by (intros H; discriminate H).
  split; [left; reflexivity|]. split; [reflexivity|]. split; [|split].
  - destruct (Scan_duration_only_without_fraction exNUMBER exDURATION_VAL
                asciiToLower init_keywords (NewScanner (str "10s")) []
                (str "10") [] (or_introl eq_refl) eq_refl) as [Hunit _].
    destruct (Hunit (rn "s") Hne eq_refl) as [Hs _]. exact (Hs eq_refl).
  - destruct (Scan_duration_only_without_fraction exNUMBER exDURATION_VAL
                asciiToLower init_keywords (NewScanner (str "10ms")) []
                (str "10") (str "s") (or_introl eq_refl) eq_refl) as [Hunit _].
    destruct (Hunit (rn "m") Hne eq_refl) as [_ Hm]. exact (Hm eq_refl).
  - destruct (Scan_duration_only_without_fraction exNUMBER exDURATION_VAL
                asciiToLower init_keywords (NewScanner (str "10.5s")) []
                (str "10") (str "s") (or_introl eq_refl) eq_refl) as [_ Hfrac].
    refine (Hfrac (str "5") _ eq_refl eq_refl eq_refl).
    intros H; discriminate H.
Defined.

(** ** C3 *)

Lemma TokenBuffer_replay_witness :
  let r0 : result := (IDENT, mkPos 0 0, str "a") in
  let r1 : result := (WS, mkPos 0 1, str " ") in
  let r2 : result := (IDENT, mkPos 0 2, str "b") in
  let b0 := NewTokenBuffer (NewScanner (str "a b")) in
  let b1 := mkTokenBuffer (mkReader (str "a b") 5) 3 0
              [zeroResult; r0; r1; r2; zeroResult; zeroResult] in
  buffer_ok b0 /\
  (2 <= 3)%nat /\
  scans (exScan init_keywords) 3 b0 = Some ([r0; r1; r2], b1) /\
  n b1 + Z.of_nat 2 <= capacity - 1 /\
  scans noScan 2 (unscans 2 b1) = Some ([r1; r2], b1).
Proof.
  intros r0 r1 r2 b0 b1.
  assert (Hok : buffer_ok b0).
  { unfold buffer_ok, capacity. simpl. repeat split; try reflexivity;
      intros H; discriminate H. }
  assert (Hle : (2 <= 3)%nat) by (repeat constructor).
  assert (Hcap : n b1 + Z.of_nat 2 <= capacity - 1)
    by (intros H; discriminate H).
  split; [exact Hok|]. split; [exact Hle|]. split; [reflexivity|].
  split; [exact Hcap|].
  exact (TokenBuffer_replay reader (exScan init_keywords) noScan b0 b1
           [r0; r1; r2] 3 2 Hok Hle eq_refl Hcap).
Defined.

(** [Scan], [Scan], [Unscan], [Scan] on the buffer: the third call gives
    the second token again. *)
Example TokenBuffer_Scan_unscan_example :
  ('(r1, b) ← TokenBuffer_Scan init_keywords
                (NewTokenBuffer (NewScanner (str "a b")));
   '(r2, b) ← TokenBuffer_Scan init_keywords b;
   '(r3, b) ← TokenBuffer_Scan init_keywords (Unscan b);
   Some [r1; r2; r3])
  = Some [(IDENT, mkPos 0 0, str "a"); (WS, mkPos 0 1, str " ");
          (WS, mkPos 0 1, str " ")].
Proof. vm_compute. reflexivity. Qed.

(** ** C4 *)


(** ** C5 *)

Lemma init_keywords_lookup (name : list Z) (tok : Token) :
  init_keywords !! name = Some tok -> In tok [AND; OR; TRUE; FALSE].
Proof.
  unfold init_keywords. intros H.
  repeat (apply lookup_insert_Some in H as [[_ <-] | [_ H]];
          [simpl; auto 6|]).
  rewrite lookup_empty in H. discriminate H.
Qed.

Lemma init_keywords_no_IDENT (name : list Z) :
  init_keywords !! name <> Some IDENT.
Proof.
  intros H. apply init_keywords_lookup in H. simpl in H.
  repeat (destruct H as [H | H]; [discriminate H|]). exact H.
Qed.

Lemma Scan_word_keyword_or_ident_witness :
  str "AND" <> [] /\
  forallb isWordChar (str "AND") = true /\
  identEnd [] /\
  (forall name : list Z, init_keywords !! name <> Some IDENT) /\
  unconsumed (NewScanner (str "AND")) = str "AND" ++ [] /\
  exists s',
    unconsumed s' = [] /\
    exScan init_keywords (NewScanner (str "AND"))
    = Some (match init_keywords !! asciiToLower (str "AND") with
            | Some tok => (tok, mkPos 0 0, [])
            | None => (IDENT, mkPos 0 0, str "AND")
            end, s').
Proof.
  assert (Hne : str "AND" <> []) by (intros H; discriminate H).
  assert (Hend : identEnd []) by (left; reflexivity).
  split; [exact Hne|]. split; [reflexivity|]. split; [exact Hend|].
  split; [exact init_keywords_no_IDENT|]. split; [reflexivity|].
  exact (Scan_word_keyword_or_ident exNUMBER exDURATION_VAL asciiToLower
           init_keywords (NewScanner (str "AND")) (str "AND") [] Hne eq_refl
           Hend init_keywords_no_IDENT eq_refl).
Defined.

(** ** C6 *)

Lemma Scan_quoted_ident_witness :
  unconsumed (NewScanner (dquote :: str "foo bar" ++ [dquote]))
  = dquote :: (str "foo bar" ++ [dquote]) /\
  unconsumed (NewScanner (dquote :: str "foo bar")) = dquote :: str "foo bar" /\
  (exists s',
     exScan init_keywords (NewScanner (dquote :: str "foo bar" ++ [dquote]))
     = Some (IDENT, mkPos 0 0, str "foo bar", s') /\
     unconsumed s' = []) /\
  (exists pos0 s',
     exScan init_keywords (NewScanner (dquote :: str "foo bar"))
     = Some (BADSTRING, pos0, str "foo bar", s')).
Proof.
  split; [reflexivity|]. split; [reflexivity|]. split.
  - destruct (Scan_quoted_ident exNUMBER exDURATION_VAL asciiToLower
                init_keywords
                (NewScanner (dquote :: str "foo bar" ++ [dquote]))
                (str "foo bar" ++ [dquote]) eq_refl) as (_ & Hclosed & _).
    exact (Hclosed (str "foo bar") [] eq_refl eq_refl).
  - destruct (Scan_quoted_ident exNUMBER exDURATION_VAL asciiToLower
                init_keywords (NewScanner (dquote :: str "foo bar"))
                (str "foo bar") eq_refl) as (_ & _ & Hopen).
    exact (Hopen (str "foo bar") eq_refl eq_refl).
Defined.

(** ** C7 *)

Lemma Scan_whitespace_run_witness :
  str "   " <> [] /\
  forallb isWhitespace (str "   ") = true /\
  isWhitespace (hd eof (str "b")) = false /\
  unconsumed (mkReader (str "a   b") 1) = str "   " ++ str "b" /\
  exists s',
    exScan init_keywords (mkReader (str "a   b") 1)
    = Some (WS, mkPos 0 1, str "   ", s') /\
    unconsumed s' = str "b".
Proof.
  assert (Hne : str "   " <> []) by (intros H; discriminate H).
  split; [exact Hne|]. split; [reflexivity|]. split; [reflexivity|].
  split; [reflexivity|].
  exact (Scan_whitespace_run exNUMBER exDURATION_VAL asciiToLower init_keywords
           (mkReader (str "a   b") 1) (str "   ") (str "b") Hne eq_refl eq_refl
           eq_refl).
Defined.

(** ** C8 *)

Lemma exNUMBER_content : isContentKind exNUMBER.
Proof. unfold isContentKind. repeat split; try reflexivity; intros H; discriminate H. Qed.

Lemma exDURATION_VAL_content : isContentKind exDURATION_VAL.
Proof. unfold isContentKind. repeat split; try reflexivity; intros H; discriminate H. Qed.

Lemma init_keywords_ok : keywords_ok init_keywords.
Proof. intros name tok H. left. exact (init_keywords_lookup name tok H). Qed.


(** ** C9 *)

(** C9 as stated fails: the display strings [X] and [x] are distinct and
    the kinds 1001 and 1002 are disjoint, yet the keyword table depends on
    the order of the two registrations, and looking [X] up gives the kind
    registered last. *)
Lemma LoadTokenMap_case_collision :
  let t := mkTables ∅ init_keywords in
  let mA := [(1001, str "X")] in
  let mB := [(1002, str "x")] in
  (1001 : Token) <> 1002 /\
  str "X" <> str "x" /\
  keywords (LoadTokenMap asciiToLower mB (LoadTokenMap asciiToLower mA t))
  <> keywords (LoadTokenMap asciiToLower mA (LoadTokenMap asciiToLower mB t)) /\
  Lookup asciiToLower
    (keywords (LoadTokenMap asciiToLower mB (LoadTokenMap asciiToLower mA t)))
    (str "X") = 1002 /\
  Lookup asciiToLower
    (keywords (LoadTokenMap asciiToLower mA (LoadTokenMap asciiToLower mB t)))
    (str "X") = 1001.
Proof.
  intros t mA mB.
  split; [intros H; discriminate H|]. split; [intros H; discriminate H|].
  split; [|split; vm_compute; reflexivity].
  intros H. apply (f_equal (fun m : gmap (list Z) Z => m !! str "x")) in H.
  vm_compute in H. discriminate H.
Qed.

Lemma LoadTokenMap_order_independent_witness :
  let t := mkTables ∅ init_keywords in
  let m1 := [(1001, str "select")] in
  let m2 := [(1002, str "from")] in
  (forall e1 e2 : Token * gostring, In e1 m1 -> In e2 m2 ->
     e1.1 <> e2.1 /\ asciiToLower e1.2 <> asciiToLower e2.2) /\
  LoadTokenMap asciiToLower m2 (LoadTokenMap asciiToLower m1 t)
  = LoadTokenMap asciiToLower m1 (LoadTokenMap asciiToLower m2 t) /\
  Lookup asciiToLower
    (keywords (LoadTokenMap asciiToLower m2 (LoadTokenMap asciiToLower m1 t)))
    (str "select") = 1001.
Proof.
  intros t m1 m2.
  assert (Hd : forall e1 e2 : Token * gostring, In e1 m1 -> In e2 m2 ->
            e1.1 <> e2.1 /\ asciiToLower e1.2 <> asciiToLower e2.2).
  { intros e1 e2 [<- | []] [<- | []]. split; intros H; discriminate H. }
  split; [exact Hd|].
  destruct (LoadTokenMap_order_independent exNUMBER exDURATION_VAL asciiToLower
              m1 m2 t Hd) as [Heq Hlook].
  split; [exact Heq|].
  destruct (Hlook 1001 (str "select") eq_refl) as [H _]. exact H.
Defined.

(** ** C10 *)


(** ** The further properties at concrete inputs *)

Lemma Scan_progress_witness :
  exScan init_keywords (NewScanner (str "ab c"))
  = Some (IDENT, mkPos 0 0, str "ab", mkReader (str "ab c") 2) /\
  src (mkReader (str "ab c") 2) = src (NewScanner (str "ab c")) /\
  (cur (NewScanner (str "ab c")) < cur (mkReader (str "ab c") 2))%nat.
Proof.
  split; [reflexivity|].
  exact (Scan_progress exNUMBER exDURATION_VAL asciiToLower init_keywords
           (NewScanner (str "ab c")) (IDENT, mkPos 0 0, str "ab")
           (mkReader (str "ab c") 2) eq_refl).
Defined.

Lemma Scan_reaches_EOF_witness :
  (length (str "a b") <= 3)%nat /\
  exists pos s',
    Scan_nth exNUMBER exDURATION_VAL asciiToLower init_keywords 3
      (NewScanner (str "a b"))
    = Some (EOF, pos, [], s').
Proof.
  assert (Hle : (length (str "a b") <= 3)%nat) by (simpl; lia).
  split; [exact Hle|].
  exact (Scan_reaches_EOF exNUMBER exDURATION_VAL asciiToLower init_keywords
           (str "a b") 3 Hle).
Defined.

Lemma Scan_number_lexeme_witness :
  startsNumber (unconsumed (NewScanner (str ".5x"))) = true /\
  exists tok lit s',
    exScan init_keywords (NewScanner (str ".5x"))
    = Some (tok, mkPos 0 0, lit, s') /\
    (tok = exNUMBER \/ tok = exDURATION_VAL) /\
    lit <> [] /\ lexeme (NewScanner (str ".5x")) lit s'.
Proof.
  split; [reflexivity|].
  exact (Scan_number_lexeme exNUMBER exDURATION_VAL asciiToLower init_keywords
           (NewScanner (str ".5x")) eq_refl).
Defined.

Lemma Scan_position_witness :
  exScan init_keywords (mkReader (str "a b") 1)
  = Some (WS, mkPos 0 1, str " ", mkReader (str "a b") 2) /\
  (mkPos 0 1 = posAt (str "a b") 1 \/
   WS = STRING \/ WS = BADSTRING \/ WS = BADESCAPE).
Proof.
  split; [reflexivity|].
  exact (Scan_position exNUMBER exDURATION_VAL asciiToLower init_keywords
           (mkReader (str "a b") 1) WS (mkPos 0 1) (str " ")
           (mkReader (str "a b") 2) eq_refl).
Defined.

Lemma Scan_comparison_operator_witness :
  In (rn "<") [rn "="; rn "!"; rn ">"; rn "<"] /\
  unconsumed (NewScanner (str "<=1")) = rn "<" :: str "=1" /\
  exScan init_keywords (NewScanner (str "<=1"))
  = Some (LTE, mkPos 0 0, [], mkReader (str "<=1") 2).
Proof.
  assert (Hin : In (rn "<") [rn "="; rn "!"; rn ">"; rn "<"])
    by (simpl; auto).
  split; [exact Hin|]. split; [reflexivity|].
  exact (Scan_comparison_operator exNUMBER exDURATION_VAL asciiToLower
           init_keywords (NewScanner (str "<=1")) (rn "<") (str "=1") Hin
           eq_refl).
Defined.

Lemma Scan_single_rune_token_witness :
  In (rn "%", PERCENT) singleRuneTokens /\
  unconsumed (NewScanner (str "%d")) = rn "%" :: str "d" /\
  exScan init_keywords (NewScanner (str "%d"))
  = Some (PERCENT, mkPos 0 0, [], mkReader (str "%d") 1).
Proof.
  assert (Hin : In (rn "%", PERCENT) singleRuneTokens)
    by (unfold singleRuneTokens; simpl; auto 20).
  split; [exact Hin|]. split; [reflexivity|].
  exact (Scan_single_rune_token exNUMBER exDURATION_VAL asciiToLower
           init_keywords (NewScanner (str "%d")) (rn "%") PERCENT (str "d")
           Hin eq_refl).
Defined.

Lemma Scan_illegal_rune_witness :
  isWhitespace (rn "~") = false /\
  isIdentChar (rn "~") = false /\
  ~ In (rn "~") switchRunes /\
  unconsumed (NewScanner (str "~a")) = rn "~" :: str "a" /\
  exScan init_keywords (NewScanner (str "~a"))
  = Some (ILLEGAL, mkPos 0 0, [rn "~"], mkReader (str "~a") 1).
Proof.
  assert (Hno : ~ In (rn "~") switchRunes).
  { intros H. vm_compute in H.
    repeat (destruct H as [H | H]; [discriminate H|]). exact H. }
  split; [reflexivity|]. split; [reflexivity|]. split; [exact Hno|].
  split; [reflexivity|].
  exact (Scan_illegal_rune exNUMBER exDURATION_VAL asciiToLower init_keywords
           (NewScanner (str "~a")) (rn "~") (str "a") eq_refl eq_refl Hno
           eq_refl).
Defined.

Lemma Scan_single_quoted_witness :
  forallb (plainChar squote) (str "hi") = true /\
  ([squote] = [] \/ hd eof [squote] = squote) /\
  unconsumed (NewScanner (squote :: str "hi" ++ [squote]))
  = squote :: str "hi" ++ [squote] /\
  exists s',
    exScan init_keywords (NewScanner (squote :: str "hi" ++ [squote]))
    = Some (STRING, mkPos 0 0, str "hi", s') /\
    unconsumed s' = [].
Proof.
  split; [reflexivity|]. split; [right; reflexivity|]. split; [reflexivity|].
  exact (Scan_single_quoted exNUMBER exDURATION_VAL asciiToLower init_keywords
           (NewScanner (squote :: str "hi" ++ [squote])) (str "hi") [squote]
           eq_refl (or_intror eq_refl) eq_refl).
Defined.

Lemma Scan_word_then_quoted_witness :
  str "ab" <> [] /\
  forallb isWordChar (str "ab") = true /\
  forallb (plainChar dquote) (str "cd") = true /\
  unconsumed (NewScanner (str "ab" ++ dquote :: str "cd" ++ [dquote]))
  = str "ab" ++ dquote :: str "cd" ++ dquote :: [] /\
  exists s',
    exScan init_keywords (NewScanner (str "ab" ++ dquote :: str "cd" ++ [dquote]))
    = Some (IDENT, mkPos 0 0, str "cd", s') /\
    unconsumed s' = [].
Proof.
  assert (Hne : str "ab" <> []) by (intros H; discriminate H).
  split; [exact Hne|]. split; [reflexivity|]. split; [reflexivity|].
  split; [reflexivity|].
  exact (Scan_word_then_quoted exNUMBER exDURATION_VAL asciiToLower
           init_keywords
           (NewScanner (str "ab" ++ dquote :: str "cd" ++ [dquote]))
           (str "ab") (str "cd") [] Hne eq_refl eq_refl eq_refl).
Defined.

Lemma Scan_EOF_iff_witness :
  isContentKind exNUMBER /\
  isContentKind exDURATION_VAL /\
  keywords_ok init_keywords /\
  ((exists pos lit s',
      exScan init_keywords (NewScanner (str "a" ++ [0] ++ str "b"))
      = Some (EOF, pos, lit, s')) <->
   hd eof (unconsumed (NewScanner (str "a" ++ [0] ++ str "b"))) = eof) /\
  ((exists pos lit s',
      exScan init_keywords (mkReader (str "a" ++ [0] ++ str "b") 1)
      = Some (EOF, pos, lit, s')) <->
   hd eof (unconsumed (mkReader (str "a" ++ [0] ++ str "b") 1)) = eof).
Proof.
  split; [exact exNUMBER_content|]. split; [exact exDURATION_VAL_content|].
  split; [exact init_keywords_ok|]. split.
  - exact (Scan_EOF_iff exNUMBER exDURATION_VAL asciiToLower init_keywords
             (NewScanner (str "a" ++ [0] ++ str "b")) exNUMBER_content
             exDURATION_VAL_content init_keywords_ok).
  - exact (Scan_EOF_iff exNUMBER exDURATION_VAL asciiToLower init_keywords
             (mkReader (str "a" ++ [0] ++ str "b") 1) exNUMBER_content
             exDURATION_VAL_content init_keywords_ok).
Defined.

Lemma Scan_never_unscanned_kind_witness :
  isContentKind exNUMBER /\
  isContentKind exDURATION_VAL /\
  keywords_ok init_keywords /\
  exScan init_keywords (NewScanner (str "**"))
  = Some (MUL, mkPos 0 0, [], mkReader (str "**") 1) /\
  ~ In MUL unscannedKinds.
Proof.
  split; [exact exNUMBER_content|]. split; [exact exDURATION_VAL_content|].
  split; [exact init_keywords_ok|]. split; [reflexivity|].
  exact (Scan_never_unscanned_kind exNUMBER exDURATION_VAL asciiToLower
           init_keywords (NewScanner (str "**")) MUL (mkPos 0 0) []
           (mkReader (str "**") 1) exNUMBER_content exDURATION_VAL_content
           init_keywords_ok eq_refl).
Defined.

Lemma LoadTokenMap_round_trip_witness :
  let m := [(1001, str "SELECT"); (1002, str "From")] in
  NoDup (map fst m) /\
  NoDup (map (fun kv : Token * gostring => asciiToLower kv.2) m) /\
  In (1002, str "From") m /\
  Token_String (tokens (LoadTokenMap asciiToLower m init_tables)) 1002
  = str "From" /\
  Lookup asciiToLower (keywords (LoadTokenMap asciiToLower m init_tables))
    (str "From") = 1002.
Proof.
  intros m.
  assert (Hk : NoDup (map fst m))
    by (refine (bool_decide_unpack _ _); vm_compute; exact I).
  assert (Hv : NoDup (map (fun kv : Token * gostring => asciiToLower kv.2) m))
    by (refine (bool_decide_unpack _ _); vm_compute; exact I).
  assert (Hin : In (1002, str "From") m) by (right; left; reflexivity).
  split; [exact Hk|]. split; [exact Hv|]. split; [exact Hin|].
  exact (LoadTokenMap_round_trip asciiToLower m init_tables 1002 (str "From")
           Hk Hv Hin).
Defined.

Lemma ScanFunc_fails_only_with_scanner_witness :
  let b := NewTokenBuffer (NewScanner (str "a")) in
  buffer_ok b /\
  n b <= i b + capacity + 1 /\
  (ScanFunc noScan b = None <-> n b = 0 /\ noScan (s b) = None).
Proof.
  intros b.
  assert (Hok : buffer_ok b).
  { unfold buffer_ok, capacity. simpl. repeat split; try reflexivity;
      intros H; discriminate H. }
  assert (Hle : n b <= i b + capacity + 1) by (intros H; discriminate H).
  split; [exact Hok|]. split; [exact Hle|].
  exact (ScanFunc_fails_only_with_scanner reader noScan b Hok Hle).
Defined.

Lemma ScanFunc_outside_window_witness :
  let b := unscans 8 (NewTokenBuffer (NewScanner (str "a"))) in
  buffer_ok b /\
  i b + capacity + 1 < n b /\
  ScanFunc (exScan init_keywords) b = None.
Proof.
  intros b.
  assert (Hok : buffer_ok b).
  { unfold buffer_ok, capacity. simpl. repeat split; try reflexivity;
      intros H; discriminate H. }
  assert (Hout : i b + capacity + 1 < n b) by reflexivity.
  split; [exact Hok|]. split; [exact Hout|].
  exact (ScanFunc_outside_window reader (exScan init_keywords) b Hok Hout).
Defined.


Lemma scans_pass_through_witness :
  let b0 := NewTokenBuffer (NewScanner (str "a b")) in
  buffer_ok b0 /\
  n b0 = 0 /\
  match scans (exScan init_keywords) 3 b0 with
  | Some (ts, b1) =>
    scan_list (exScan init_keywords) 3 (s b0) = Some (ts, s b1) /\ n b1 = 0
  | None => scan_list (exScan init_keywords) 3 (s b0) = None
  end.
Proof.
  intros b0.
  assert (Hok : buffer_ok b0).
  { unfold buffer_ok, capacity. simpl. repeat split; try reflexivity;
      intros H; discriminate H. }
  split; [exact Hok|]. split; [reflexivity|].
  exact (scans_pass_through reader (exScan init_keywords) 3 b0 Hok eq_refl).
Defined.

Lemma NewTokenBuffer_unscan_witness :
  (2 <= 7)%nat /\
  scans (exScan init_keywords) 2
    (unscans 2 (NewTokenBuffer (NewScanner (str "a"))))
  = Some ([zeroResult; zeroResult], NewTokenBuffer (NewScanner (str "a"))).
Proof.
  assert (Hle : (2 <= 7)%nat) by (repeat constructor).
  split; [exact Hle|].
  exact (NewTokenBuffer_unscan reader (exScan init_keywords)
           (NewScanner (str "a")) 2 Hle).
Defined.
